(** * Verification of the conversion orchestrator of [convertVideo.py]

    A shallow embedding of the batch-conversion core of the program
    ([VideoConverterApp.convert_videos], [convert_single_video],
    [_normalize_dimension], the simulated-progress timer and the
    status-message rotator), followed by the properties proved about it.

    Conventions of the embedding.
    - Python [int] is [Z].  Python [float] is modelled by exact rationals
      [Q]: [/] on two ints is [truediv], literals such as [0.9] are the
      fractions [9/10].  Every finite float is a rational, so a function
      that only rounds its argument ([_normalize_dimension]) is covered on
      all finite floats.
    - Python [str] is [string] (a byte string; [str.lower] maps the ASCII
      letters).  [pathlib.Path] is the POSIX flavour.
    - Exceptions are values of [Exn]; code that can raise lives in the
      state-and-exception monad [M].
    - The transcoding engine and the file system are a record of fallible
      operations over an abstract world [W]; every call made to them is
      appended to the field [calls] of the system state.
    - The Tk main loop is abstracted as an arbitrary finite sequence of
      timer-callback firings between two consecutive actions of the
      worker thread. *)

From Stdlib Require Import ZArith QArith Qround Lia Lqa Ascii String Sorted.
From stdpp Require Import base decidable list strings gmap.

Open Scope Z_scope.

(** ** Python numerics *)

(** [a / b] on two Python ints (true division).  The program only divides
    by [total = len(self.selected_files)] inside the loop over those files,
    where [total >= 1]. *)
Definition truediv (a b : Z) : Q := (inject_Z a / inject_Z b)%Q.

(** Built-in [round(x)] with one argument: nearest integer, ties to the
    even neighbour. *)
Definition py_round (x : Q) : Z :=
  let f := Qfloor x in
  match ((x - inject_Z f) ?= (1 # 2))%Q with
  | Lt => f
  | Gt => f + 1
  | Eq => if Z.even f then f else f + 1
  end.

(** Built-in [min(a, b)]: the first argument unless the second is
    strictly smaller. *)
Definition py_min (a b : Q) : Q := if Qlt_le_dec b a then b else a.

(** [a < b] on numbers, as a boolean. *)
Definition py_lt (a b : Q) : bool := if Qlt_le_dec a b then true else false.

(** ** [_normalize_dimension] (static method, lines 962-968) *)

Definition _normalize_dimension (value : Q) : Z :=
  let even := py_round value in
  let even := if decide (even mod 2 ≠ 0) then even - 1 else even in
  Z.max 2 even.

(** ** Python strings *)

Definition ascii_lower (c : ascii) : ascii :=
  let n := nat_of_ascii c in
  if decide (65 ≤ n ≤ 90)%nat then ascii_of_nat (n + 32) else c.

(** [str.lower] on ASCII text. *)
Fixpoint lower (s : string) : string :=
  match s with
  | EmptyString => EmptyString
  | String c r => String (ascii_lower c) (lower r)
  end.

(** Truth value of a [str]: false exactly for the empty string. *)
Definition str_truthy (s : string) : bool :=
  match s with EmptyString => false | _ => true end.

(** [s.split(sep)] for a one-character separator. *)
Fixpoint split_on (sep : ascii) (s : string) : list string :=
  match s with
  | EmptyString => [EmptyString]
  | String c r =>
      if decide (c = sep) then EmptyString :: split_on sep r
      else match split_on sep r with
           | [] => [String c EmptyString]
           | x :: xs => String c x :: xs
           end
  end.

(** [sep.join(parts)]. *)
Fixpoint join (sep : string) (parts : list string) : string :=
  match parts with
  | [] => EmptyString
  | [x] => x
  | x :: xs => x +:+ sep +:+ join sep xs
  end.

(** [s.rfind(c)]: index of the last occurrence of [c], or [-1]. *)
Fixpoint rfind_from (c : ascii) (s : string) (i : Z) (found : Z) : Z :=
  match s with
  | EmptyString => found
  | String d r => rfind_from c r (i + 1) (if decide (d = c) then i else found)
  end.

Definition rfind (c : ascii) (s : string) : Z := rfind_from c s 0 (-1).

Definition str_len (s : string) : Z := Z.of_nat (String.length s).

(** ** [pathlib.Path], POSIX flavour

    A path is its parsed form: the root (empty, one slash or exactly two
    slashes) and the list of its components, from which the empty ones and
    the [.] ones have been dropped. *)
Module Pathlib.

Record Path := mkPath { root : string; tail : list string }.

Definition slash : ascii := "/"%char.

(** [posixpath.splitroot]: the root and the remainder of the text. *)
Definition splitroot (s : string) : string * string :=
  match s with
  | String a r =>
      if decide (a = slash) then
        match r with
        | String b r' =>
            if decide (b = slash) then
              match r' with
              | String c _ =>
                  if decide (c = slash) then ("/"%string, r) else ("//"%string, r')
              | EmptyString => ("//"%string, r')
              end
            else ("/"%string, r)
        | EmptyString => ("/"%string, r)
        end
      else (EmptyString, s)
  | EmptyString => (EmptyString, s)
  end.

Definition keep_part (x : string) : bool :=
  bool_decide (x ≠ EmptyString) && bool_decide (x ≠ "."%string).

(** [Path(s)]. *)
Definition parse (s : string) : Path :=
  let '(rt, rel) := splitroot s in
  mkPath rt (List.filter keep_part (split_on slash rel)).

(** [str(p)]. *)
Definition str (p : Path) : string :=
  let s := root p +:+ join "/" (tail p) in
  if str_truthy s then s else "."%string.

(** [p.parent]. *)
Definition parent (p : Path) : Path :=
  match tail p with
  | [] => p
  | _ => mkPath (root p) (removelast (tail p))
  end.

(** [p.name]. *)
Definition name (p : Path) : string := List.last (tail p) EmptyString.

(** [p.stem]: the name without its last suffix. *)
Definition stem (p : Path) : string :=
  let nm := name p in
  let i := rfind "."%char nm in
  if decide (0 < i < str_len nm - 1) then substring 0 (Z.to_nat i) nm else nm.

(** [p / key] for a [str] key: an absolute key replaces the path. *)
Definition div (p : Path) (key : string) : Path :=
  match key with
  | String c _ =>
      if decide (c = slash) then parse key
      else mkPath (root p) (tail p ++ tail (parse key))
  | EmptyString => p
  end.

End Pathlib.

(** ** Exceptions, engine objects and observable output *)

(** A raised exception, identified by the text [str(e)] shows. *)
Definition Exn := string.

(** A decoded clip: the reader it holds on the source file and its frame
    size ([clip.w], [clip.h]). *)
Record Clip := mkClip { clip_reader : nat; clip_w : Z; clip_h : Z }.

(** What [clip.resize(newsize=(w, h))] returns when it succeeds: a clip of
    the requested size over the same reader. *)
Definition resized (c : Clip) (w h : Z) : Clip := mkClip (clip_reader c) w h.

(** The calls the program makes to the file system and to the engine,
    each with what came back: [Some e] and [inl e] mean that [e] was
    raised.  [CMkdir d] is [d.mkdir(parents=True, exist_ok=True)];
    [CWriteGif] is [write_gif] with [program='ffmpeg', opt='OptimizePlus',
    fuzz=1]; [CWriteVideofile] carries the video codec and then the audio
    codec. *)
Inductive Call :=
| CMkdir (dir : string) (raised : option Exn)
| COpen (path : string) (result : Exn + Clip)
| CResize (c : Clip) (w h : Z) (raised : option Exn)
| CWriteGif (c : Clip) (path : string) (fps : Z) (raised : option Exn)
| CWriteVideofile (c : Clip) (path codec audio_codec : string)
    (raised : option Exn)
| CClose (c : Clip).

(** The file system and the transcoding engine: each operation reads and
    updates the world. *)
Record Engine (W : Type) := mkEngine {
  fs_mkdir : string → W → option Exn * W;
  VideoFileClip : string → W → (Exn + Clip) * W;
  clip_resize : Clip → Z → Z → W → option Exn * W;
  clip_write_gif : Clip → string → Z → W → option Exn * W;
  clip_write_videofile : Clip → string → string → string → W → option Exn * W;
  clip_close : Clip → W → W
}.
Arguments fs_mkdir {W}.
Arguments VideoFileClip {W}.
Arguments clip_resize {W}.
Arguments clip_write_gif {W}.
Arguments clip_write_videofile {W}.
Arguments clip_close {W}.

(** The lines [log_status] appends to the status area, by their format
    string. *)
Inductive LogLine :=
| LogStarting (target_format : string)   (* Starting conversion to {}... *)
| LogRule                                (* "=" * 60 *)
| LogConverting (name : string)          (* Converting {}... *)
| LogDone (name out_name : string)       (* check mark, {} -> {} *)
| LogFailed (name : string) (reason : Exn) (* cross mark, {}: {} *)
| LogMessage (message : string)          (* two spaces, then {} *)
| LogSummary (success_count total : Z).  (* Conversion complete: {}/{} successful *)

(** The text of [progress_label]. *)
Inductive Label :=
| LabelEmpty
| LabelConverting (index total : Z)
| LabelComplete.

(** The callbacks handed to [root.after]. *)
Inductive Callback :=
| cb_animate_simulated_progress
| cb_show_funny_message
| cb_reset_progress.

(** The two self-rescheduling timer loops. *)
Inductive TimerLoop := ProgressTick | MessageTick.

(** The Tk variables and attributes a batch reads. *)
Record Config := mkConfig {
  selected_files : list string;
  output_folder : option string;
  format_var : string;
  fps_var : Z;
  scale_var : Q;
  max_width_var : Z;
  full_width_var : bool
}.

(** [THINKING_MESSAGES] (class attribute, lines 97-198). *)
Definition THINKING_MESSAGES : list string := [
  "🎬 Wrangling pixels into submission...";
  "🔧 Teaching bits new dance moves...";
  "🎨 Convincing frames to get along...";
  "⚡ Negotiating with the codec union...";
  "🎭 Rehearsing the video's new format...";
  "🔮 Consulting the FFmpeg oracle...";
  "🎪 Herding cats... I mean, frames...";
  "🧙 Casting video transformation spell...";
  "🎵 Humming while encoding...";
  "🚀 Launching frames into new dimension...";
  "🎯 Aligning pixels with cosmic precision...";
  "🌀 Spinning up the flux capacitor...";
  "🎸 Teaching audio to play nice...";
  "🔬 Analyzing frame DNA...";
  "🎁 Gift-wrapping your video...";
  "☕ Brewing a fresh batch of frames...";
  "🎲 Rolling for codec compatibility...";
  "🧪 Mixing video potions...";
  "📐 Measuring twice, encoding once...";
  "🎻 Orchestrating the bit symphony...";
  "🌈 Adding a sprinkle of magic...";
  "🔥 Turning up the encoding heat...";
  "🧊 Keeping things cool under pressure...";
  "🎯 Zeroing in on perfection...";
  "🛸 Beaming frames to their new home...";
  "🤖 Asking AI nicely to help...";
  "🎩 Pulling codecs out of a hat...";
  "🧲 Magnetically aligning bits...";
  "🎪 Juggling keyframes...";
  "🌊 Riding the bitrate wave...";
  "🔭 Searching for the perfect frame...";
  "🎯 Playing darts with pixels...";
  "🧩 Solving the video puzzle...";
  "🎨 Bob Ross-ing these frames...";
  "🏋️ Heavy lifting in progress...";
  "🎹 Composing a visual symphony...";
  "🧬 Splicing video genes...";
  "🌪️ Tornado of transformation...";
  "🎡 Taking frames for a spin...";
  "🔐 Unlocking video potential...";
  "🎪 Teaching pixels circus tricks...";
  "🧠 Big brain encoding time...";
  "🎸 Shredding through frames...";
  "🌟 Sprinkling some stardust...";
  "🎭 Frames auditioning for new roles...";
  "🧁 Baking video goodness...";
  "🎯 Pixel perfect in progress...";
  "🚂 All aboard the encode train...";
  "🎨 Finger painting with data...";
  "🔧 Tightening the loose bits...";
  "🎵 Finding the right rhythm...";
  "🌙 Working the night shift...";
  "🎪 Video acrobatics underway...";
  "🧪 Experimental encoding phase...";
  "🎭 Drama-free conversion mode...";
  "🚀 Houston, we have liftoff...";
  "🎬 Lights, camera, encode!";
  "🧙 Abracadabra, new format!";
  "🎸 Rock and roll encoding...";
  "🌈 Chasing the perfect rainbow...";
  "🎯 Bullseye optimization...";
  "☕ Coffee break for the CPU...";
  "🎪 Frame gymnastics routine...";
  "🔮 Reading the codec tea leaves...";
  "🧊 Keeping the bits frosty...";
  "🎹 Tickling the ivories of data...";
  "🌊 Surfing the data stream...";
  "🎨 Painting by numbers (binary)...";
  "🧬 DNA test for your video...";
  "🎭 Standing ovation incoming...";
  "🔧 Fine-tuning the masterpiece...";
  "🎵 Dropping the bass (and treble)...";
  "🚂 Choo choo! Encode express!";
  "🎪 Taming wild pixels...";
  "🧠 Neurons firing on all cylinders...";
  "🌟 Making movie magic...";
  "🎬 Director's cut in progress...";
  "🎸 This one goes to eleven...";
  "🧁 The secret ingredient is love...";
  "🔮 The spirits say... almost done...";
  "🎯 Sniper-level precision...";
  "🌪️ Controlled chaos mode...";
  "🎹 Mozart would be proud...";
  "🧪 Science is happening...";
  "🎭 Oscar-worthy conversion...";
  "🚀 To infinity and beyond!";
  "🎨 Michelangelo of encoding...";
  "☕ Fueled by caffeine and hope...";
  "🌈 Taste the rainbow of bits...";
  "🔧 Wrench in hand, ready to go...";
  "🎵 Symphony of compression...";
  "🧙 Gandalf approved encoding...";
  "🎪 Greatest show on earth...";
  "🌊 Making waves in video land...";
  "🎯 Threading the needle...";
  "🧊 Ice cold execution...";
  "🎬 And... action!";
  "🔮 Fortune favors the encoded...";
  "🎸 Encoding solo in progress...";
  "🧁 Fresh out of the oven soon..."
]%string.

(** ** System state

    The attributes of the application object the orchestrator mutates, the
    widgets it writes to (as the history of what was written), the calls
    made to [root.after], the world of the engine with the calls made to
    it, and the source of random draws. *)
Section System.

Context {W : Type}.

Record Sys := mkSys {
  simulated_progress : Q;
  simulated_progress_running : bool;
  current_file_start_progress : Q;
  current_file_end_progress : Q;
  funny_message_running : bool;
  used_messages : list string;
  progress_bar : list Q;
  progress_label : Label;
  status_text : list LogLine;
  after_calls : list (Z * Callback);
  world : W;
  calls : list Call;
  entropy : list nat
}.

Definition set_simulated_progress (v : Q) (s : Sys) : Sys :=
  mkSys v (simulated_progress_running s) (current_file_start_progress s)
    (current_file_end_progress s) (funny_message_running s) (used_messages
    s) (progress_bar s) (progress_label s) (status_text s) (after_calls s)
    (world s) (calls s) (entropy s).

Definition set_simulated_progress_running (v : bool) (s : Sys) : Sys :=
  mkSys (simulated_progress s) v (current_file_start_progress s)
    (current_file_end_progress s) (funny_message_running s) (used_messages
    s) (progress_bar s) (progress_label s) (status_text s) (after_calls s)
    (world s) (calls s) (entropy s).

Definition set_current_file_start_progress (v : Q) (s : Sys) : Sys :=
  mkSys (simulated_progress s) (simulated_progress_running s) v
    (current_file_end_progress s) (funny_message_running s) (used_messages
    s) (progress_bar s) (progress_label s) (status_text s) (after_calls s)
    (world s) (calls s) (entropy s).

Definition set_current_file_end_progress (v : Q) (s : Sys) : Sys :=
  mkSys (simulated_progress s) (simulated_progress_running s)
    (current_file_start_progress s) v (funny_message_running s)
    (used_messages s) (progress_bar s) (progress_label s) (status_text s)
    (after_calls s) (world s) (calls s) (entropy s).

Definition set_funny_message_running (v : bool) (s : Sys) : Sys :=
  mkSys (simulated_progress s) (simulated_progress_running s)
    (current_file_start_progress s) (current_file_end_progress s) v
    (used_messages s) (progress_bar s) (progress_label s) (status_text s)
    (after_calls s) (world s) (calls s) (entropy s).

Definition set_used_messages (v : list string) (s : Sys) : Sys :=
  mkSys (simulated_progress s) (simulated_progress_running s)
    (current_file_start_progress s) (current_file_end_progress s)
    (funny_message_running s) v (progress_bar s) (progress_label s)
    (status_text s) (after_calls s) (world s) (calls s) (entropy s).

Definition set_progress_bar (v : list Q) (s : Sys) : Sys :=
  mkSys (simulated_progress s) (simulated_progress_running s)
    (current_file_start_progress s) (current_file_end_progress s)
    (funny_message_running s) (used_messages s) v (progress_label s)
    (status_text s) (after_calls s) (world s) (calls s) (entropy s).

Definition set_progress_label (v : Label) (s : Sys) : Sys :=
  mkSys (simulated_progress s) (simulated_progress_running s)
    (current_file_start_progress s) (current_file_end_progress s)
    (funny_message_running s) (used_messages s) (progress_bar s) v
    (status_text s) (after_calls s) (world s) (calls s) (entropy s).

Definition set_status_text (v : list LogLine) (s : Sys) : Sys :=
  mkSys (simulated_progress s) (simulated_progress_running s)
    (current_file_start_progress s) (current_file_end_progress s)
    (funny_message_running s) (used_messages s) (progress_bar s)
    (progress_label s) v (after_calls s) (world s) (calls s) (entropy s).

Definition set_after_calls (v : list (Z * Callback)) (s : Sys) : Sys :=
  mkSys (simulated_progress s) (simulated_progress_running s)
    (current_file_start_progress s) (current_file_end_progress s)
    (funny_message_running s) (used_messages s) (progress_bar s)
    (progress_label s) (status_text s) v (world s) (calls s) (entropy s).

Definition set_world (v : W) (s : Sys) : Sys :=
  mkSys (simulated_progress s) (simulated_progress_running s)
    (current_file_start_progress s) (current_file_end_progress s)
    (funny_message_running s) (used_messages s) (progress_bar s)
    (progress_label s) (status_text s) (after_calls s) v (calls s) (entropy
    s).

Definition set_calls (v : list Call) (s : Sys) : Sys :=
  mkSys (simulated_progress s) (simulated_progress_running s)
    (current_file_start_progress s) (current_file_end_progress s)
    (funny_message_running s) (used_messages s) (progress_bar s)
    (progress_label s) (status_text s) (after_calls s) (world s) v (entropy
    s).

Definition set_entropy (v : list nat) (s : Sys) : Sys :=
  mkSys (simulated_progress s) (simulated_progress_running s)
    (current_file_start_progress s) (current_file_end_progress s)
    (funny_message_running s) (used_messages s) (progress_bar s)
    (progress_label s) (status_text s) (after_calls s) (world s) (calls s) v.

End System.
Arguments Sys : clear implicits.

(** ** The state-and-exception monad

    A computation over a state [S] returns a value or raises; the state
    changes made before an exception is raised are kept. *)
Definition M (S A : Type) : Type := S → (Exn + A) * S.

Definition ret {S A} (a : A) : M S A := λ s, (inr a, s).

Definition bind {S A B} (m : M S A) (k : A → M S B) : M S B :=
  λ s, match m s with
       | (inl e, s') => (inl e, s')
       | (inr a, s') => k a s'
       end.

Definition raise {S A} (e : Exn) : M S A := λ s, (inl e, s).

Definition gets {S A} (f : S → A) : M S A := λ s, (inr (f s), s).

Definition modify {S} (f : S → S) : M S unit := λ s, (inr tt, f s).

(** [try: m  except Exception as e: h e]. *)
Definition try_except {S A} (m : M S A) (h : Exn → M S A) : M S A :=
  λ s, match m s with
       | (inl e, s') => h e s'
       | (inr a, s') => (inr a, s')
       end.

(** [try: m  finally: fin]; an exception of [fin] replaces the outcome
    of [m]. *)
Definition try_finally {S A} (m : M S A) (fin : M S unit) : M S A :=
  λ s, match m s with
       | (r, s') =>
           match fin s' with
           | (inl e, s'') => (inl e, s'')
           | (inr _, s'') => (r, s'')
           end
       end.

(** A computation of the enclosing function run in a frame that holds
    one more local variable. *)
Definition lift {L S A} (m : M S A) : M (L * S) A :=
  λ '(l, s), match m s with (r, s') => (r, (l, s')) end.

(** Runs [m] with a local variable initialised to [init]; the variable
    goes away when [m] is left. *)
Definition with_local {L S A} (init : L) (m : M (L * S) A) : M S A :=
  λ s, match m (init, s) with (r, (_, s')) => (r, s') end.

Definition get_local {L S} : M (L * S) L := λ '(l, s), (inr l, (l, s)).

Definition set_local {L S} (l : L) : M (L * S) unit :=
  λ '(_, s), (inr tt, (l, s)).

Declare Scope py_scope.
Delimit Scope py_scope with py.
Notation "x <- m ;; k" := (bind m (λ x, k))
  (at level 20, m at level 99, k at level 200, only parsing) : py_scope.
Notation "m ;; k" := (bind m (λ _, k))
  (at level 100, k at level 200, right associativity, only parsing) : py_scope.
Open Scope py_scope.

(** [a / b] where the divisor is not known to be non-zero. *)
Definition py_truediv {S} (a b : Z) : M S Q :=
  if decide (b = 0) then raise "division by zero"%string
  else ret (truediv a b).

(** ** The program *)
Section Program.

Context {W : Type}.
Variable eng : Engine W.
Variable cfg : Config.
(** The message pool [self.THINKING_MESSAGES]. *)
Variable messages : list string.

Abbreviation Sys := (Sys W).

(** *** Widgets and the event loop *)

(** [self.progress_bar.set(v)]. *)
Definition progress_bar_set (v : Q) (s : Sys) : Sys :=
  set_progress_bar (progress_bar s ++ [v]) s.

(** [self.root.after(delay, cb)]. *)
Definition root_after (delay : Z) (cb : Callback) (s : Sys) : Sys :=
  set_after_calls (after_calls s ++ [(delay, cb)]) s.

(** [log_status] (lines 768-772). *)
Definition log_status (line : LogLine) : M Sys unit :=
  modify (λ s, set_status_text (status_text s ++ [line]) s).

(** *** Random draws *)

(** The next raw draw of the generator. *)
Definition draw : M Sys nat :=
  λ s, match entropy s with
       | [] => (inr 0%nat, s)
       | r :: rest => (inr r, set_entropy rest s)
       end.

(** [random.choice(seq)]: raises on an empty sequence. *)
Definition random_choice (seq : list string) : M Sys string :=
  match seq with
  | [] => raise "Cannot choose from an empty sequence"%string
  | _ =>
      r <- draw ;;
      match seq !! (r mod length seq)%nat with
      | Some x => ret x
      | None => raise "list index out of range"%string
      end
  end.

(** [random.randint(a, b)]. *)
Definition random_randint (a b : Z) : M Sys Z :=
  r <- draw ;; ret (a + Z.of_nat r mod (b - a + 1)).

(** *** Simulated progress (lines 897-923) *)

Definition animate_simulated_progress (s : Sys) : Sys :=
  if negb (simulated_progress_running s) then s
  else
    let max_progress :=
      (current_file_start_progress s
       + (current_file_end_progress s - current_file_start_progress s)
         * (9 # 10))%Q in
    let s :=
      if py_lt (simulated_progress s) max_progress then
        let increment :=
          ((current_file_end_progress s - current_file_start_progress s)
           * (2 # 100))%Q in
        let s :=
          set_simulated_progress
            (py_min (simulated_progress s + increment)%Q max_progress) s in
        progress_bar_set (simulated_progress s) s
      else s in
    if simulated_progress_running s
    then root_after 150 cb_animate_simulated_progress s
    else s.

Definition start_simulated_progress (s : Sys) : Sys :=
  animate_simulated_progress (set_simulated_progress_running true s).

Definition stop_simulated_progress (s : Sys) : Sys :=
  set_simulated_progress_running false s.

(** *** Status messages (lines 925-960) *)

Definition get_random_message : M Sys string :=
  used <- gets used_messages ;;
  let available := List.filter (λ m, bool_decide (m ∉ used)) messages in
  available <-
    match available with
    | [] => modify (set_used_messages []) ;; ret messages
    | _ => ret available
    end ;;
  message <- random_choice available ;;
  modify (λ s, set_used_messages (used_messages s ++ [message]) s) ;;
  used <- gets used_messages ;;
  (if decide (10 < length used)%nat
   then modify (set_used_messages (drop 1 used))
   else ret tt) ;;
  ret message.

Definition show_funny_message : M Sys unit :=
  running <- gets funny_message_running ;;
  if negb running then ret tt
  else
    message <- get_random_message ;;
    log_status (LogMessage message) ;;
    delay <- random_randint 8000 10000 ;;
    running <- gets funny_message_running ;;
    if running then modify (root_after delay cb_show_funny_message)
    else ret tt.

Definition start_funny_messages : M Sys unit :=
  modify (set_funny_message_running true) ;;
  show_funny_message.

Definition stop_funny_messages (s : Sys) : Sys :=
  set_funny_message_running false s.

(** A timer of one of the two loops fires: the main loop runs the
    callback and, as Tk does, reports and drops an exception it raises. *)
Definition fire (t : TimerLoop) (s : Sys) : Sys :=
  match t with
  | ProgressTick => animate_simulated_progress s
  | MessageTick => snd (show_funny_message s)
  end.

Definition fire_all (ts : list TimerLoop) (s : Sys) : Sys :=
  foldl (λ s t, fire t s) s ts.

(** *** Calls to the file system and the engine *)

Definition called (c : Call) (w : W) (s : Sys) : Sys :=
  set_world w (set_calls (calls s ++ [c]) s).

Definition outcome (r : option Exn) : Exn + unit :=
  match r with Some e => inl e | None => inr tt end.

(** [dir.mkdir(parents=True, exist_ok=True)]. *)
Definition mkdir (dir : Pathlib.Path) : M Sys unit :=
  λ s, let '(r, w) := fs_mkdir eng (Pathlib.str dir) (world s) in
       (outcome r, called (CMkdir (Pathlib.str dir) r) w s).

Definition open_clip (path : string) : M Sys Clip :=
  λ s, let '(r, w) := VideoFileClip eng path (world s) in
       (r, called (COpen path r) w s).

(** [clip.resize(newsize=(w, h))]. *)
Definition resize (c : Clip) (w h : Z) : M Sys Clip :=
  λ s, let '(r, wd) := clip_resize eng c w h (world s) in
       (match r with Some e => inl e | None => inr (resized c w h) end,
        called (CResize c w h r) wd s).

Definition write_gif (c : Clip) (path : string) (fps : Z) : M Sys unit :=
  λ s, let '(r, w) := clip_write_gif eng c path fps (world s) in
       (outcome r, called (CWriteGif c path fps r) w s).

Definition write_videofile (c : Clip) (path codec audio_codec : string)
  : M Sys unit :=
  λ s, let '(r, w) :=
         clip_write_videofile eng c path codec audio_codec (world s) in
       (outcome r, called (CWriteVideofile c path codec audio_codec r) w s).

Definition close (c : Clip) : M Sys unit :=
  λ s, (inr tt, called (CClose c) (clip_close eng c (world s)) s).

(** *** [convert_single_video] (lines 970-1040) *)

(** The table [codec_map]. *)
Definition codec_map : gmap string string :=
  {[ "MP4" := "libx264"; "MOV" := "libx264"; "MKV" := "libx264";
     "WEBM" := "libvpx"; "AVI" := "mpeg4" ]}%string.

(** [codec_map.get(target_format, 'libx264')]. *)
Definition video_codec (target_format : string) : string :=
  default "libx264"%string (codec_map !! target_format).

(** ['aac' if target_format in ['MP4', 'MOV', 'MKV'] else 'libvorbis']. *)
Definition audio_codec (target_format : string) : string :=
  if bool_decide (target_format ∈ ["MP4"; "MOV"; "MKV"]%string)
  then "aac"%string else "libvorbis"%string.

(** The directory the output goes to (lines 975-978). *)
Definition output_dir (input_path : Pathlib.Path) : Pathlib.Path :=
  match output_folder cfg with
  | Some folder =>
      if str_truthy folder then Pathlib.parse folder
      else Pathlib.parent input_path
  | None => Pathlib.parent input_path
  end.

(** The value of the local variable [clip], which every use after the
    open finds bound to a clip. *)
Definition the_clip : M (option Clip * Sys) Clip :=
  c <- get_local ;;
  match c with
  | Some c => ret c
  | None => raise "'NoneType' object has no attribute"%string
  end.

(** The global-scale stage (lines 998-1001). *)
Definition gif_global_scale : M (option Clip * Sys) unit :=
  let scale := scale_var cfg in
  if py_lt scale 1 then
    clip <- the_clip ;;
    let target_width :=
      _normalize_dimension (inject_Z (clip_w clip) * scale) in
    let target_height :=
      _normalize_dimension (inject_Z (clip_h clip) * scale) in
    c <- lift (resize clip target_width target_height) ;;
    set_local (Some c)
  else ret tt.

(** The max-width stage (lines 1003-1009). *)
Definition gif_max_width_cap : M (option Clip * Sys) unit :=
  if negb (full_width_var cfg) then
    let max_width := max_width_var cfg in
    clip <- the_clip ;;
    if decide (clip_w clip > max_width) then
      ratio <- py_truediv max_width (clip_w clip) ;;
      let max_width_even := _normalize_dimension (inject_Z max_width) in
      let target_height :=
        _normalize_dimension (inject_Z (clip_h clip) * ratio) in
      c <- lift (resize clip max_width_even target_height) ;;
      set_local (Some c)
    else ret tt
  else ret tt.

(** The body of the [try] (lines 990-1035). *)
Definition transcode (input_path output_path : Pathlib.Path)
    (target_format : string) : M (option Clip * Sys) unit :=
  c <- lift (open_clip (Pathlib.str input_path)) ;;
  set_local (Some c) ;;
  if decide (target_format = "GIF"%string) then
    let fps := fps_var cfg in
    gif_global_scale ;;
    gif_max_width_cap ;;
    clip <- the_clip ;;
    lift (write_gif clip (Pathlib.str output_path) fps)
  else
    let codec := video_codec target_format in
    clip <- the_clip ;;
    lift (write_videofile clip (Pathlib.str output_path) codec
            (audio_codec target_format)).

(** The [finally] clause: [if clip: clip.close()]. *)
Definition release : M (option Clip * Sys) unit :=
  c <- get_local ;;
  match c with
  | Some c => lift (close c)
  | None => ret tt
  end.

(** The output file (lines 983-984). *)
Definition output_path (input_path : Pathlib.Path) (target_format : string)
  : Pathlib.Path :=
  let output_name :=
    (Pathlib.stem input_path +:+ "." +:+ lower target_format)%string in
  Pathlib.div (output_dir input_path) output_name.

Definition convert_single_video (input_path target_format : string)
  : M Sys string :=
  let input_path := Pathlib.parse input_path in
  let output_dir := output_dir input_path in
  mkdir output_dir ;;
  let output_path := output_path input_path target_format in
  log_status (LogConverting (Pathlib.name input_path)) ;;
  with_local None
    (try_finally (transcode input_path output_path target_format) release) ;;
  ret (Pathlib.str output_path).

(** *** [convert_videos] (lines 816-895) *)

(** The timer firings of a batch: [sched index gap] lists the timers that
    fire while job [index] is at [gap]: 0 after the progress range is set,
    1 and 2 around the blocking engine call, 3 after the animation is
    stopped. *)
Definition Schedule := Z → nat → list TimerLoop.

Definition name_of (path : string) : string :=
  Pathlib.name (Pathlib.parse path).

(** The start of a turn of the loop, up to the engine call (lines
    841-849). *)
Definition begin_file (sched : Schedule) (index total : Z) : M Sys unit :=
  start <- py_truediv (index - 1) total ;;
  modify (set_current_file_start_progress start) ;;
  stop <- py_truediv index total ;;
  modify (set_current_file_end_progress stop) ;;
  modify (λ s, set_simulated_progress (current_file_start_progress s) s) ;;
  modify (set_progress_label (LabelConverting index total)) ;;
  modify (fire_all (sched index 0%nat)) ;;
  modify start_simulated_progress ;;
  modify (fire_all (sched index 1%nat)).

(** The rest of the turn once the engine call has returned [result]
    (lines 853-861). *)
Definition end_file (sched : Schedule) (index : Z) (file_path result : string)
    (success_count : Z) : M Sys Z :=
  modify (fire_all (sched index 2%nat)) ;;
  modify stop_simulated_progress ;;
  modify (fire_all (sched index 3%nat)) ;;
  if str_truthy result then
    log_status (LogDone (name_of file_path) (name_of result)) ;;
    modify (λ s, progress_bar_set (current_file_end_progress s) s) ;;
    ret (success_count + 1)
  else ret success_count.

(** The handler [except Exception as e] (lines 862-867). *)
Definition fail_file (sched : Schedule) (index total : Z) (file_path : string)
    (success_count : Z) (e : Exn) : M Sys Z :=
  modify stop_simulated_progress ;;
  modify (fire_all (sched index 3%nat)) ;;
  log_status (LogFailed (name_of file_path) e) ;;
  v <- py_truediv index total ;;
  modify (progress_bar_set v) ;;
  ret success_count.

(** One turn of the loop (lines 839-867); the result is the new value
    of [success_count]. *)
Definition process_file (sched : Schedule) (target_format : string)
    (index total : Z) (file_path : string) (success_count : Z) : M Sys Z :=
  try_except
    (begin_file sched index total ;;
     result <- convert_single_video file_path target_format ;;
     end_file sched index file_path result success_count)
    (fail_file sched index total file_path success_count).

(** [for index, file_path in enumerate(self.selected_files, 1)]. *)
Fixpoint for_each_file (sched : Schedule) (target_format : string)
    (total : Z) (files : list string) (index : Z) (success_count : Z)
  : M Sys Z :=
  match files with
  | [] => ret success_count
  | file_path :: rest =>
      success_count <-
        process_file sched target_format index total file_path
          success_count ;;
      for_each_file sched target_format total rest (index + 1) success_count
  end.

Definition convert_videos (sched : Schedule) : M Sys unit :=
  let target_format := format_var cfg in
  let success_count := 0 in
  let total := Z.of_nat (length (selected_files cfg)) in
  modify (progress_bar_set 0) ;;
  modify (set_simulated_progress 0) ;;
  modify (set_used_messages []) ;;
  start_funny_messages ;;
  log_status (LogStarting target_format) ;;
  log_status LogRule ;;
  success_count <-
    for_each_file sched target_format total (selected_files cfg) 1
      success_count ;;
  modify stop_funny_messages ;;
  modify (progress_bar_set 1) ;;
  modify (set_progress_label LabelComplete) ;;
  log_status LogRule ;;
  log_status (LogSummary success_count total) ;;
  modify (root_after 3000 cb_reset_progress).

End Program.

(** ** Observations on a run *)

(** The calls made, the lines logged and the progress values published
    between state [s] and a later state [s']. *)
Definition calls_since {W} (s s' : Sys W) : list Call :=
  drop (length (calls s)) (calls s').

Definition log_since {W} (s s' : Sys W) : list LogLine :=
  drop (length (status_text s)) (status_text s').


Definition is_close (c : Call) : bool :=
  match c with CClose _ => true | _ => false end.

Definition is_mkdir (c : Call) : bool :=
  match c with CMkdir _ _ => true | _ => false end.

Definition is_resize (c : Call) : bool :=
  match c with CResize _ _ _ _ => true | _ => false end.

(** The calls the body of the [try] can make once the clip is open. *)
Definition is_body_call (c : Call) : bool :=
  match c with
  | CResize _ _ _ _ | CWriteGif _ _ _ _ | CWriteVideofile _ _ _ _ _ => true
  | _ => false
  end.

(** The clip a call is made on. *)
Definition call_clip (c : Call) : option Clip :=
  match c with
  | CResize c _ _ _ | CWriteGif c _ _ _ | CWriteVideofile c _ _ _ _
  | CClose c => Some c
  | _ => None
  end.

(** The directory of a [CMkdir] call. *)
Definition mkdir_dir (c : Call) : string :=
  match c with CMkdir d _ => d | _ => EmptyString end.

(** The lines that report the outcome of a job. *)
Definition is_outcome_line (l : LogLine) : bool :=
  match l with LogDone _ _ | LogFailed _ _ => true | _ => false end.

Definition is_done_line (l : LogLine) : bool :=
  match l with LogDone _ _ => true | _ => false end.

(** The source file an outcome line names. *)
Definition line_name (l : LogLine) : string :=
  match l with
  | LogDone n _ | LogFailed n _ => n
  | _ => EmptyString
  end.



(** The ceiling of the simulated progress inside the range [lo, hi]. *)
Definition ceiling (lo hi : Q) : Q := (lo + (hi - lo) * (9 # 10))%Q.

(** The number of distinct elements of a list. *)
Definition distinct (l : list string) : nat := length (remove_dups l).

(** The messages returned by [n] successive calls of
    [get_random_message]. *)
Fixpoint emissions {W} (messages : list string) (n : nat)
  : M (Sys W) (list string) :=
  match n with
  | O => ret []
  | S n =>
      m <- get_random_message messages ;;
      ms <- emissions messages n ;;
      ret (m :: ms)
  end.

(** The candidates of a selection: the messages not in the history. *)
Definition available (messages used : list string) : list string :=
  List.filter (λ m, bool_decide (m ∉ used)) messages.

(** The list after [used.append(message)] and the eviction of the oldest
    entry when more than 10 are held. *)
Definition remembered (used : list string) (message : string)
  : list string :=
  let used := used ++ [message] in
  if decide (10 < length used)%nat then drop 1 used else used.

(** ** The runs of a job, as traces

    The shapes the calls of one [convert_single_video] can take, one
    constructor per exit path; [convert_single_video_run] below shows that
    every run of the function has one of these shapes. *)
Section Runs.

Variable cfg : Config.

(** The state [s] after the calls [tr] were made, the lines [lg] were
    logged and the world became [w]. *)
Definition emitted {W} (tr : list Call) (lg : list LogLine) (w : W)
    (s : Sys W) : Sys W :=
  set_world w
    (set_calls (calls s ++ tr) (set_status_text (status_text s ++ lg) s)).

(** [scale_run c tr c' r]: the global-scale stage entered with clip [c]
    makes the calls [tr], leaves the clip [c'] and raises [r]. *)
Inductive scale_run (c : Clip) : list Call → Clip → option Exn → Prop :=
| scale_skipped :
    py_lt (scale_var cfg) 1 = false → scale_run c [] c None
| scale_resized w h :
    py_lt (scale_var cfg) 1 = true →
    w = _normalize_dimension (inject_Z (clip_w c) * scale_var cfg) →
    h = _normalize_dimension (inject_Z (clip_h c) * scale_var cfg) →
    scale_run c [CResize c w h None] (resized c w h) None
| scale_raised w h e :
    py_lt (scale_var cfg) 1 = true →
    w = _normalize_dimension (inject_Z (clip_w c) * scale_var cfg) →
    h = _normalize_dimension (inject_Z (clip_h c) * scale_var cfg) →
    scale_run c [CResize c w h (Some e)] c (Some e).

(** The same for the max-width stage. *)
Inductive cap_run (c : Clip) : list Call → Clip → option Exn → Prop :=
| cap_full_width :
    full_width_var cfg = true → cap_run c [] c None
| cap_fits :
    full_width_var cfg = false → clip_w c ≤ max_width_var cfg →
    cap_run c [] c None
| cap_zero_width :
    full_width_var cfg = false → clip_w c > max_width_var cfg →
    clip_w c = 0 →
    cap_run c [] c (Some "division by zero"%string)
| cap_resized w h :
    full_width_var cfg = false → clip_w c > max_width_var cfg →
    clip_w c ≠ 0 →
    w = _normalize_dimension (inject_Z (max_width_var cfg)) →
    h = _normalize_dimension
          (inject_Z (clip_h c) * truediv (max_width_var cfg) (clip_w c)) →
    cap_run c [CResize c w h None] (resized c w h) None
| cap_raised w h e :
    full_width_var cfg = false → clip_w c > max_width_var cfg →
    clip_w c ≠ 0 →
    w = _normalize_dimension (inject_Z (max_width_var cfg)) →
    h = _normalize_dimension
          (inject_Z (clip_h c) * truediv (max_width_var cfg) (clip_w c)) →
    cap_run c [CResize c w h (Some e)] c (Some e).

(** [body_run fmt out c0 tr c r]: after the open returned [c0], the body
    of the [try] makes the calls [tr], leaves [c] in the variable [clip]
    and raises [r]. *)
Inductive body_run (fmt out : string) (c0 : Clip)
  : list Call → Clip → option Exn → Prop :=
| video_written r :
    fmt ≠ "GIF"%string →
    body_run fmt out c0
      [CWriteVideofile c0 out (video_codec fmt) (audio_codec fmt) r] c0 r
| gif_scale_failed tr c1 e :
    fmt = "GIF"%string →
    scale_run c0 tr c1 (Some e) →
    body_run fmt out c0 tr c1 (Some e)
| gif_cap_failed tr1 c1 tr2 c2 e :
    fmt = "GIF"%string →
    scale_run c0 tr1 c1 None → cap_run c1 tr2 c2 (Some e) →
    body_run fmt out c0 (tr1 ++ tr2) c2 (Some e)
| gif_written tr1 c1 tr2 c2 r :
    fmt = "GIF"%string →
    scale_run c0 tr1 c1 None → cap_run c1 tr2 c2 None →
    body_run fmt out c0
      (tr1 ++ tr2 ++ [CWriteGif c2 out (fps_var cfg) r]) c2 r.

(** [job_run fmt dir path name out tr lg res]: a whole call of
    [convert_single_video]. *)
Inductive job_run (fmt dir path name out : string)
  : list Call → list LogLine → Exn + string → Prop :=
| mkdir_raised e :
    job_run fmt dir path name out [CMkdir dir (Some e)] [] (inl e)
| open_raised e :
    job_run fmt dir path name out
      [CMkdir dir None; COpen path (inl e)] [LogConverting name] (inl e)
| clip_released c0 body c r :
    body_run fmt out c0 body c r →
    job_run fmt dir path name out
      (CMkdir dir None :: COpen path (inr c0) :: body ++ [CClose c])
      [LogConverting name]
      (match r with Some e => inl e | None => inr out end).

End Runs.

(** ** What the timers do to the progress

    [climb m x vs x']: from the simulated value [x], ticks publish the
    values [vs] in this order, none above [m], and leave the simulated
    value at [x']. *)
Inductive climb (m : Q) : Q → list Q → Q → Prop :=
| climb_done x : climb m x [] x
| climb_tick x v vs x' :
    (x <= v)%Q → (v <= m)%Q → climb m v vs x' → climb m x (v :: vs) x'.

(** [ticked s s']: what separates [s'] from an earlier state [s] when, in
    between, only timers of the two loops fired and the loops were started
    or stopped.  The progress range, the engine and the widgets other than
    the bar and the status area are untouched; the bar received a climb
    below the ceiling of the range; the status area received no outcome
    line. *)
Definition ticked {W} (s s' : Sys W) : Prop :=
  current_file_start_progress s' = current_file_start_progress s ∧
  current_file_end_progress s' = current_file_end_progress s ∧
  progress_label s' = progress_label s ∧
  world s' = world s ∧
  calls s' = calls s ∧
  (∃ vs,
     progress_bar s' = progress_bar s ++ vs ∧
     climb (ceiling (current_file_start_progress s)
              (current_file_end_progress s))
       (simulated_progress s) vs (simulated_progress s')) ∧
  (∃ lg,
     status_text s' = status_text s ++ lg ∧
     List.filter is_outcome_line lg = []).

(** The line that reports the outcome [res] of the job on [file]. *)
Definition outcome_line (file : string) (res : Exn + string) : LogLine :=
  match res with
  | inl e => LogFailed (name_of file) e
  | inr out => LogDone (name_of file) (name_of out)
  end.

Definition succeeded (res : Exn + string) : bool :=
  match res with inr _ => true | inl _ => false end.

(** [job_of cfg fmt file run]: [run] pairs the calls and the result of a
    call of [convert_single_video] on [file]. *)
Definition job_of (cfg : Config) (fmt file : string)
    (run : list Call * (Exn + string)) : Prop :=
  let p := Pathlib.parse file in
  ∃ lg,
    job_run cfg fmt (Pathlib.str (output_dir cfg p)) (Pathlib.str p)
      (Pathlib.name p) (Pathlib.str (output_path cfg p fmt))
      (fst run) lg (snd run).

(** ** A small engine for concrete runs

    The world counts the files opened so far, which numbers the readers.
    Opening [/v/missing.mov] raises, writing [/v/b.mp4] raises, resizing
    to a width below 100 raises; every source is 801 by 601. *)
Definition demo_engine : Engine nat := {|
  fs_mkdir := λ _ n, (None, n);
  VideoFileClip := λ p n,
    (if decide (p = "/v/missing.mov"%string)
     then inl "UnreadableSource"%string
     else inr (mkClip n 801 601), S n);
  clip_resize := λ _ w _ n,
    (if decide (w < 100) then Some "ResizeError"%string else None, n);
  clip_write_gif := λ _ _ _ n, (None, n);
  clip_write_videofile := λ _ p _ _ n,
    (if decide (p = "/v/b.mp4"%string)
     then Some "EncodeError"%string else None, n);
  clip_close := λ _ n, n
|}.

Definition demo_files : list string :=
  ["/v/a.mov"; "/v/b.mov"; "/v/c.mov"]%string.

Definition demo_config (target_format : string) : Config :=
  mkConfig demo_files None target_format 15 (1 # 2) 350 false.

(** The state of a freshly created application ([__init__], lines
    209-222), with some random draws to come. *)
Definition demo_init : Sys nat :=
  mkSys 0 false 0 0 false [] [] LabelEmpty [] [] 0%nat []
    [3; 1; 4; 1; 5; 9; 2; 6]%nat.

Definition demo_schedule : Schedule :=
  λ _ gap,
    match gap with
    | 0%nat => [ProgressTick]
    | 1%nat => [ProgressTick; ProgressTick; MessageTick; ProgressTick]
    | 2%nat => [ProgressTick]
    | _ => [ProgressTick; MessageTick]
    end.

(** ** Further observations on the calls of a job *)

(** The exception a call raised, if it raised one. *)
Definition call_raised (c : Call) : option Exn :=
  match c with
  | CMkdir _ r | CResize _ _ _ r | CWriteGif _ _ _ r
  | CWriteVideofile _ _ _ _ r => r
  | COpen _ (inl e) => Some e
  | COpen _ (inr _) => None
  | CClose _ => None
  end.

Definition is_open (c : Call) : bool :=
  match c with COpen _ _ => true | _ => false end.

Definition is_write (c : Call) : bool :=
  match c with
  | CWriteGif _ _ _ _ | CWriteVideofile _ _ _ _ _ => true
  | _ => false
  end.

(** The file a writer call writes. *)
Definition write_path (c : Call) : option string :=
  match c with
  | CWriteGif _ p _ _ | CWriteVideofile _ p _ _ _ => Some p
  | _ => None
  end.


(** The messages among the lines of the status area. *)
Definition shown_messages (lg : list LogLine) : list string :=
  omap (λ l, match l with LogMessage m => Some m | _ => None end) lg.

(** [rotates h ms h']: from the history [h], the messages [ms] are
    selected one after the other, each one absent from the history of its
    time, and the history ends as [h']. *)
Inductive rotates : list string → list string → list string → Prop :=
| rotates_done h : rotates h [] h
| rotates_next h m ms h' :
    m ∉ h → rotates (remembered h m) ms h' → rotates h (m :: ms) h'.

(** [rotated messages s s']: between [s] and [s'] the status area
    received lines whose messages come from the pool and were selected in
    rotation from the history of [s], which became that of [s']. *)
Definition rotated {W} (messages : list string) (s s' : Sys W) : Prop :=
  ∃ lg,
    status_text s' = status_text s ++ lg
    ∧ Forall (λ m, m ∈ messages) (shown_messages lg)
    ∧ rotates (used_messages s) (shown_messages lg) (used_messages s').

(** ** Other functions of the file *)

(** [c in s] for a character. *)
Fixpoint contains_char (c : ascii) (s : string) : bool :=
  match s with
  | EmptyString => false
  | String d r => bool_decide (d = c) || contains_char c r
  end.

(** [p.is_relative_to(other)]: [other] is [p] or one of its parents. *)
Definition is_relative_to (p other : Pathlib.Path) : bool :=
  bool_decide (Pathlib.root p = Pathlib.root other)
  && bool_decide
       (take (length (Pathlib.tail other)) (Pathlib.tail p)
        = Pathlib.tail other).

(** The folders [get_display_path] shows by name (line 690). *)
Definition common_folders : list string :=
  ["Desktop"; "Documents"; "Downloads"; "Pictures"; "Videos"]%string.

(** [get_display_path] (lines 673-698), where [home] is [Path.home()];
    [parts] is [path_obj.relative_to(home_dir).parts], which does not
    raise once [is_relative_to] has answered [True]. *)
Definition get_display_path (home : Pathlib.Path) (full_path : string)
  : string :=
  if negb (str_truthy full_path) then EmptyString
  else
    let path_obj := Pathlib.parse full_path in
    let shown :=
      if is_relative_to path_obj home then
        let parts := drop (length (Pathlib.tail home)) (Pathlib.tail path_obj) in
        match parts with
        | first :: _ =>
            if bool_decide (first ∈ common_folders) then Some first else None
        | [] => None
        end
      else None in
    match shown with
    | Some folder => (".../" +:+ folder)%string
    | None => (".../" +:+ Pathlib.name path_obj)%string
    end.

(** The rule [_append_warning_filter_env] adds (line 45). *)
Definition filter_rule : string :=
  "ignore::UserWarning:multiprocessing.resource_tracker"%string.

(** [rules] of [_append_warning_filter_env] (lines 46-47): the non-empty
    items of [PYTHONWARNINGS], which is taken as empty when unset. *)
Definition warning_rules (environ : gmap string string) : list string :=
  List.filter str_truthy
    (split_on ","%char (default EmptyString (environ !! "PYTHONWARNINGS"%string))).

(** [_append_warning_filter_env] (lines 43-51), as a function of
    [os.environ]. *)
Definition _append_warning_filter_env (environ : gmap string string)
  : gmap string string :=
  let rules := warning_rules environ in
  if bool_decide (filter_rule ∈ rules) then environ
  else <["PYTHONWARNINGS"%string := join "," (rules ++ [filter_rule])]> environ.



(** *** The spinner of the convert button (lines 774-797) *)

(** The four characters of [spinners] (line 791): a circle whose left,
    upper, right or lower half is filled. *)
Inductive Spinner := LeftHalf | UpperHalf | RightHalf | LowerHalf.

(** The text of [convert_btn]: [original_btn_text], or the spinner on
    either side of the word Converting. *)
Inductive ButtonText :=
| TextOriginal
| TextConverting (spinner : Spinner).

(** The attributes of the application that the button animation uses;
    [button_after] lists the delays of its calls of [root.after], whose
    callback is [animate_button]. *)
Record Button := mkButton {
  animation_running : bool;
  animation_frame : Z;
  button_text : ButtonText;
  button_after : list Z
}.

Definition spinners : list Spinner :=
  [LeftHalf; UpperHalf; RightHalf; LowerHalf].

(** [l[i]] for a list: a negative index counts from the end, and an index
    out of range raises [IndexError] ([None] here). *)
Definition py_index {A} (l : list A) (i : Z) : option A :=
  if decide (0 ≤ i) then l !! Z.to_nat i
  else if decide (- Z.of_nat (length l) ≤ i)
       then l !! Z.to_nat (Z.of_nat (length l) + i)
       else None.

(** [animate_button] (lines 785-797). *)
Definition animate_button (b : Button) : Exn + Button :=
  if negb (animation_running b) then inr b
  else
    let i := animation_frame b `mod` Z.of_nat (length spinners) in
    match py_index spinners i with
    | None => inl "list index out of range"%string
    | Some spinner =>
        inr (mkButton (animation_running b) (animation_frame b + 1)
               (TextConverting spinner) (button_after b ++ [100]))
    end.

(** [start_button_animation] (lines 774-778). *)
Definition start_button_animation (b : Button) : Exn + Button :=
  animate_button
    (mkButton true 0 (button_text b) (button_after b)).

(** [stop_button_animation] (lines 780-783). *)
Definition stop_button_animation (b : Button) : Button :=
  mkButton false (animation_frame b) TextOriginal (button_after b).

(** [n] firings of the timer of [animate_button], one after the other. *)
Fixpoint button_frames (n : nat) (b : Button) : Exn + Button :=
  match n with
  | O => inr b
  | S n =>
      match animate_button b with
      | inl e => inl e
      | inr b' => button_frames n b'
      end
  end.

(** ** Proof tools *)

(** Unfolds the monad and the frame of local variables, and the wrappers
    of the engine calls. *)
Ltac mrun :=
  cbv beta iota zeta delta
    [bind ret raise gets modify lift get_local set_local the_clip
     try_except try_finally with_local py_truediv].

Ltac mrun_engine :=
  cbv beta iota zeta delta
    [bind ret raise gets modify lift get_local set_local the_clip
     try_except try_finally with_local py_truediv
     mkdir open_clip resize write_gif write_videofile close].

(** Splits a run of a job into its exit paths, each with its explicit
    list of calls. *)
Ltac invert_runs :=
  repeat
    match goal with
    | H : job_run _ _ _ _ _ _ _ _ _ |- _ => inversion H; clear H; subst
    | H : body_run _ _ _ _ _ _ _ |- _ => inversion H; clear H; subst
    | H : scale_run _ _ _ _ _ |- _ => inversion H; clear H; subst
    | H : cap_run _ _ _ _ _ |- _ => inversion H; clear H; subst
    end.

(** Splits a membership in an explicit list into its cases. *)
Ltac elem_cases H :=
  simpl in H;
  repeat
    (first
       [ apply elem_of_nil in H; destruct H
       | apply elem_of_cons in H as [H|H] ]).

(** ** Properties *)

(** *** Numerics *)

Lemma truediv_le (a b n : Z) : 0 < n → a ≤ b → (truediv a n <= truediv b n)%Q.
Proof.
  intros Hn Hab. unfold truediv, Qdiv.
  apply Qmult_le_compat_r.
  - rewrite <- Zle_Qle. exact Hab.
  - apply Qinv_le_0_compat. replace 0%Q with (inject_Z 0) by reflexivity.
    rewrite <- Zle_Qle. lia.
Qed.






(** *** The runs of [convert_single_video] *)
Section JobRuns.

Context {W : Type}.
Variable eng : Engine W.
Variable cfg : Config.

Lemma emitted_nothing (s : Sys W) : emitted [] [] (world s) s = s.
Proof. destruct s. unfold emitted. simpl. by rewrite !app_nil_r. Qed.

Lemma called_emitted c w tr lg w0 (s : Sys W) :
  called c w (emitted tr lg w0 s) = emitted (tr ++ [c]) lg w s.
Proof. unfold called, emitted. simpl. by rewrite app_assoc. Qed.

Lemma logged_emitted l tr lg w (s : Sys W) :
  log_status l (emitted tr lg w s) = (inr tt, emitted tr (lg ++ [l]) w s).
Proof. unfold log_status, modify, emitted. simpl. by rewrite app_assoc. Qed.

Lemma world_emitted tr lg w (s : Sys W) : world (emitted tr lg w s) = w.
Proof. reflexivity. Qed.

Lemma gif_global_scale_run c tr lg w (s : Sys W) :
  ∃ tr' c' r w',
    gif_global_scale eng cfg (Some c, emitted tr lg w s)
    = (outcome r, (Some c', emitted (tr ++ tr') lg w' s))
    ∧ scale_run cfg c tr' c' r.
Proof.
  unfold gif_global_scale.
  destruct (py_lt (scale_var cfg) 1) eqn:Hlt.
  - mrun_engine. rewrite world_emitted.
    destruct (clip_resize eng c _ _ w) as [[e|] w'] eqn:Hr;
      rewrite called_emitted.
    + eexists _, c, (Some e), w'. split; [reflexivity|].
      by apply scale_raised.
    + eexists _, _, None, w'. split; [reflexivity|].
      by apply scale_resized.
  - exists [], c, None, w. rewrite app_nil_r. split; [reflexivity|].
    by apply scale_skipped.
Qed.

Lemma gif_max_width_cap_run c tr lg w (s : Sys W) :
  ∃ tr' c' r w',
    gif_max_width_cap eng cfg (Some c, emitted tr lg w s)
    = (outcome r, (Some c', emitted (tr ++ tr') lg w' s))
    ∧ cap_run cfg c tr' c' r.
Proof.
  unfold gif_max_width_cap.
  destruct (full_width_var cfg) eqn:Hfull; simpl.
  { exists [], c, None, w. rewrite app_nil_r. split; [reflexivity|].
    by apply cap_full_width. }
  mrun_engine.
  destruct (decide (clip_w c > max_width_var cfg)) as [Hgt|Hle].
  - destruct (decide (clip_w c = 0)) as [Hz|Hnz].
    + exists [], c, (Some "division by zero"%string), w. rewrite app_nil_r.
      split; [reflexivity|]. by apply cap_zero_width.
    + rewrite world_emitted.
      destruct (clip_resize eng c _ _ w) as [[e|] w'] eqn:Hr;
        rewrite called_emitted.
      * eexists _, c, (Some e), w'. split; [reflexivity|].
        by apply cap_raised.
      * eexists _, _, None, w'. split; [reflexivity|].
        by apply cap_resized.
  - exists [], c, None, w. rewrite app_nil_r. split; [reflexivity|].
    apply cap_fits; [done|lia].
Qed.

Lemma transcode_opened (out : Pathlib.Path) fmt c0 tr lg w (s : Sys W) :
  ∃ body c r w',
    (if decide (fmt = "GIF"%string) then
       (gif_global_scale eng cfg ;;
        gif_max_width_cap eng cfg ;;
        clip <- the_clip ;;
        lift (write_gif eng clip (Pathlib.str out) (fps_var cfg)))
     else
       (clip <- the_clip ;;
        lift (write_videofile eng clip (Pathlib.str out) (video_codec fmt)
                (audio_codec fmt))))
      (Some c0, emitted tr lg w s)
    = (outcome r, (Some c, emitted (tr ++ body) lg w' s))
    ∧ body_run cfg fmt (Pathlib.str out) c0 body c r.
Proof.
  destruct (decide (fmt = "GIF"%string)) as [Hgif|Hvid].
  - destruct (gif_global_scale_run c0 tr lg w s)
      as (tr1 & c1 & r1 & w1 & E1 & R1).
    unfold bind at 1. rewrite E1.
    destruct r1 as [e|]; simpl.
    { exists tr1, c1, (Some e), w1. split; [reflexivity|].
      by apply gif_scale_failed. }
    destruct (gif_max_width_cap_run c1 (tr ++ tr1) lg w1 s)
      as (tr2 & c2 & r2 & w2 & E2 & R2).
    unfold bind at 1. rewrite E2.
    destruct r2 as [e|]; simpl.
    { exists (tr1 ++ tr2), c2, (Some e), w2. rewrite app_assoc.
      split; [reflexivity|]. by eapply gif_cap_failed. }
    mrun_engine. rewrite world_emitted.
    destruct (clip_write_gif eng c2 _ _ w2) as [r w3] eqn:Hw.
    rewrite called_emitted.
    eexists (tr1 ++ tr2 ++ [_]), c2, r, w3. rewrite !app_assoc.
    split; [reflexivity|]. rewrite <- app_assoc. by eapply gif_written.
  - mrun_engine. rewrite world_emitted.
    destruct (clip_write_videofile eng c0 _ _ _ w) as [r w1] eqn:Hw.
    rewrite called_emitted.
    eexists [_], c0, r, w1. split; [reflexivity|].
    by apply video_written.
Qed.

(** Every call of [convert_single_video] runs along one of the paths of
    [job_run], and changes nothing but the world, the calls and the
    status area. *)
Lemma convert_single_video_run input fmt (s : Sys W) :
  let p := Pathlib.parse input in
  ∃ tr lg res w,
    convert_single_video eng cfg input fmt s = (res, emitted tr lg w s)
    ∧ job_run cfg fmt (Pathlib.str (output_dir cfg p)) (Pathlib.str p)
        (Pathlib.name p) (Pathlib.str (output_path cfg p fmt)) tr lg res.
Proof.
  intros p. unfold convert_single_video. fold p.
  unfold bind at 1. unfold mkdir.
  destruct (fs_mkdir eng _ (world s)) as [[e|] w0] eqn:Hmk; simpl.
  { exists [CMkdir (Pathlib.str (output_dir cfg p)) (Some e)], [], (inl e), w0.
    split; [|apply mkdir_raised].
    unfold called, emitted. simpl. by rewrite app_nil_r. }
  unfold bind at 1.
  replace (called (CMkdir (Pathlib.str (output_dir cfg p)) None) w0 s)
    with (emitted [CMkdir (Pathlib.str (output_dir cfg p)) None] [] w0 s)
    by (unfold called, emitted; simpl; by rewrite app_nil_r).
  rewrite logged_emitted. simpl.
  unfold bind at 1. unfold with_local, try_finally, transcode.
  unfold bind at 1. unfold lift at 1. unfold open_clip.
  rewrite world_emitted.
  destruct (VideoFileClip eng (Pathlib.str p) w0) as [[e|c0] w1] eqn:Hop;
    rewrite called_emitted; simpl.
  { eexists _, _, (inl e), w1. split; [reflexivity|]. apply open_raised. }
  unfold bind at 1. unfold set_local at 1.
  destruct (transcode_opened (output_path cfg p fmt) fmt c0
              [CMkdir (Pathlib.str (output_dir cfg p)) None;
               COpen (Pathlib.str p) (inr c0)]
              [LogConverting (Pathlib.name p)] w1 s)
    as (body & c & r & w2 & E & R).
  rewrite E. unfold release, bind, get_local, lift, close.
  rewrite called_emitted.
  eexists _, _, _, _. split; [|apply (clip_released _ _ _ _ _ _ c0 body c r R)].
  destruct r as [e|]; reflexivity.
Qed.

End JobRuns.

(** *** Consequences for the calls of a job *)
Section JobCalls.

Context {W : Type}.
Variable eng : Engine W.
Variable cfg : Config.

Lemma calls_since_emitted tr lg w (s : Sys W) :
  calls_since s (emitted tr lg w s) = tr.
Proof. unfold calls_since, emitted. simpl. apply drop_app_length. Qed.

Lemma log_since_emitted tr lg w (s : Sys W) :
  log_since s (emitted tr lg w s) = lg.
Proof. unfold log_since, emitted. simpl. apply drop_app_length. Qed.

Lemma scale_run_calls c tr c' r :
  scale_run cfg c tr c' r →
  clip_reader c' = clip_reader c
  ∧ Forall (λ x, is_body_call x = true ∧ is_resize x = true) tr.
Proof. destruct 1; split; try done; repeat constructor. Qed.

Lemma cap_run_calls c tr c' r :
  cap_run cfg c tr c' r →
  clip_reader c' = clip_reader c
  ∧ Forall (λ x, is_body_call x = true ∧ is_resize x = true) tr.
Proof. destruct 1; split; try done; repeat constructor. Qed.

Lemma body_run_calls fmt out c0 tr c r :
  body_run cfg fmt out c0 tr c r →
  clip_reader c = clip_reader c0 ∧ Forall (λ x, is_body_call x = true) tr.
Proof.
  destruct 1 as [r Hf|tr c1 e Hf Hs|tr1 c1 tr2 c2 e Hf Hs Hc
                |tr1 c1 tr2 c2 r Hf Hs Hc].
  - split; [done|]. by repeat constructor.
  - apply scale_run_calls in Hs as [-> Hs]. split; [done|].
    eapply Forall_impl; [exact Hs|]. by intros ? [? _].
  - apply scale_run_calls in Hs as [Hr1 Hs].
    apply cap_run_calls in Hc as [Hr2 Hc]. split; [congruence|].
    apply Forall_app; split; (eapply Forall_impl; [eassumption|]);
      by intros ? [? _].
  - apply scale_run_calls in Hs as [Hr1 Hs].
    apply cap_run_calls in Hc as [Hr2 Hc]. split; [congruence|].
    rewrite !Forall_app. repeat split.
    + eapply Forall_impl; [exact Hs|]. by intros ? [? _].
    + eapply Forall_impl; [exact Hc|]. by intros ? [? _].
    + by repeat constructor.
Qed.

Lemma body_calls_no (f : Call → bool) tr :
  (∀ x, is_body_call x = true → f x = false) →
  Forall (λ x, is_body_call x = true) tr → List.filter f tr = [].
Proof.
  intros Hf. induction 1 as [|x tr Hx _ IH]; [done|].
  simpl. by rewrite (Hf x Hx).
Qed.

Lemma body_calls_not_open tr path (res : Exn + Clip) :
  Forall (λ x, is_body_call x = true) tr → COpen path res ∉ tr.
Proof.
  intros Hall Hin. rewrite Forall_forall in Hall.
  by specialize (Hall _ Hin).
Qed.

Lemma resize_calls_only tr x :
  Forall (λ x, is_body_call x = true ∧ is_resize x = true) tr →
  x ∈ tr → is_resize x = true.
Proof. rewrite Forall_forall. intros Hall Hin. by destruct (Hall _ Hin). Qed.

(** The writers are called on the output file, the video writer with the
    codecs of the target format. *)
Lemma body_run_writes fmt out c0 tr c r x :
  body_run cfg fmt out c0 tr c r → x ∈ tr →
  match x with
  | CWriteGif _ path _ _ => path = out
  | CWriteVideofile _ path codec acodec _ =>
      path = out ∧ codec = video_codec fmt ∧ acodec = audio_codec fmt
  | _ => True
  end.
Proof.
  intros Hb Hin.
  destruct Hb as [r Hf|tr1 c1 e Hf Hs|tr1 c1 tr2 c2 e Hf Hs Hc
                 |tr1 c1 tr2 c2 r Hf Hs Hc].
  - apply list_elem_of_singleton in Hin. by subst x.
  - apply scale_run_calls in Hs as [_ Hs].
    apply (resize_calls_only _ _ Hs) in Hin. by destruct x.
  - apply scale_run_calls in Hs as [_ Hs]. apply cap_run_calls in Hc as [_ Hc].
    apply elem_of_app in Hin as [Hin|Hin];
      [apply (resize_calls_only _ _ Hs) in Hin
      |apply (resize_calls_only _ _ Hc) in Hin]; by destruct x.
  - apply scale_run_calls in Hs as [_ Hs]. apply cap_run_calls in Hc as [_ Hc].
    rewrite !elem_of_app, list_elem_of_singleton in Hin.
    destruct Hin as [Hin|[Hin| ->]]; [| |done];
      [apply (resize_calls_only _ _ Hs) in Hin
      |apply (resize_calls_only _ _ Hc) in Hin]; by destruct x.
Qed.

Lemma job_run_writes fmt dir path name out tr lg res x :
  job_run cfg fmt dir path name out tr lg res → x ∈ tr →
  match x with
  | CWriteGif _ path _ _ => path = out
  | CWriteVideofile _ path codec acodec _ =>
      path = out ∧ codec = video_codec fmt ∧ acodec = audio_codec fmt
  | _ => True
  end.
Proof.
  intros R Hin. destruct R as [e|e|c0 body c r Hb].
  - apply list_elem_of_singleton in Hin. by subst x.
  - rewrite !elem_of_cons, elem_of_nil in Hin.
    by destruct Hin as [->|[->|?]].
  - rewrite !elem_of_cons, elem_of_app, list_elem_of_singleton in Hin.
    destruct Hin as [->|[->|[Hin| ->]]]; try done.
    by eapply body_run_writes.
Qed.

(** C7.  The output file of a job is the output directory joined with the
    stem of the source, a dot and the lower-cased target format; the
    output directory is the configured folder when one is set and the
    directory of the source otherwise.  The directory is created (with its
    parents, an existing one being accepted) by the first call of the job,
    and the engine is called only when that succeeded.  The job returns
    the resolved path, and the writers are given it.  With no folder set,
    [/a/b/clip.MOV] converted to [gif] goes to [/a/b/clip.gif]. *)
Theorem output_path_resolution input fmt (s : Sys W) :
  let p := Pathlib.parse input in
  let dir :=
    match output_folder cfg with
    | Some folder =>
        if str_truthy folder then Pathlib.parse folder else Pathlib.parent p
    | None => Pathlib.parent p
    end in
  let out :=
    Pathlib.div dir (Pathlib.stem p +:+ "." +:+ lower fmt)%string in
  let r := convert_single_video eng cfg input fmt s in
  let tr := calls_since s (snd r) in
  (∀ res, fst r = inr res → res = Pathlib.str out)
  ∧ (∃ raised rest,
       tr = CMkdir (Pathlib.str dir) raised :: rest
       ∧ (raised ≠ None → rest = [])
       ∧ List.filter is_mkdir rest = [])
  ∧ (∀ c path fps raised,
       CWriteGif c path fps raised ∈ tr → path = Pathlib.str out)
  ∧ (∀ c path codec acodec raised,
       CWriteVideofile c path codec acodec raised ∈ tr →
       path = Pathlib.str out)
  ∧ (output_folder cfg = None →
     input = "/a/b/clip.MOV"%string → fmt = "gif"%string →
     Pathlib.str dir = "/a/b"%string
     ∧ Pathlib.str out = "/a/b/clip.gif"%string).
Proof.
  intros p dir out r tr.
  assert (Hout : out = output_path cfg p fmt) by reflexivity.
  assert (Hdir : dir = output_dir cfg p) by reflexivity.
  clearbody out dir.
  destruct (convert_single_video_run eng cfg input fmt s)
    as (tr' & lg & res & w & E & R).
  fold p in R. subst r tr. rewrite E. simpl fst. simpl snd.
  rewrite calls_since_emitted. rewrite <- Hout, <- Hdir in R.
  split; [|split; [|split; [|split]]].
  - intros res' ->. inversion R as [| |c0 body c r' Hb]; subst.
    by destruct r'; simplify_eq.
  - destruct R as [e|e|c0 body c r' Hb].
    + exists (Some e), []. by repeat split.
    + eexists None, _. by repeat split.
    + exists None, (COpen (Pathlib.str p) (inr c0) :: body ++ [CClose c]).
      repeat split; [done|]. simpl. rewrite List.filter_app. simpl.
      rewrite app_nil_r. apply body_calls_no; [by intros []|].
      by apply body_run_calls in Hb as [_ ?].
  - intros c path fps raised Hin.
    exact (job_run_writes _ _ _ _ _ _ _ _ _ R Hin).
  - intros c path codec acodec raised Hin.
    by destruct (job_run_writes _ _ _ _ _ _ _ _ _ R Hin).
  - intros Hnone Hinput Hfmt. subst out dir.
    unfold output_path, output_dir, p. rewrite Hnone, Hinput, Hfmt.
    split; reflexivity.
Qed.

(** C8.  Whenever the open of a job succeeds, the job makes exactly one
    [close] call, as its last call, on the clip then held by the variable
    [clip], which reads the source through the reader that the open
    acquired; this holds on every exit path, whatever the later calls
    raise.  When the open does not succeed there is no [close] call. *)
Theorem clip_closed_exactly_once input fmt (s : Sys W) :
  let tr := calls_since s (snd (convert_single_video eng cfg input fmt s)) in
  (∀ path c0,
     COpen path (inr c0) ∈ tr →
     ∃ before c,
       tr = before ++ [CClose c]
       ∧ List.filter is_close before = []
       ∧ clip_reader c = clip_reader c0)
  ∧ ((∀ path c0, COpen path (inr c0) ∉ tr) → List.filter is_close tr = []).
Proof.
  intros tr.
  destruct (convert_single_video_run eng cfg input fmt s)
    as (tr' & lg & res & w & E & R).
  subst tr. rewrite E. simpl snd. rewrite calls_since_emitted.
  destruct R as [e|e|c0 body c r Hb].
  - split; [|done]. intros path c0 Hin.
    by apply list_elem_of_singleton in Hin.
  - split; [|done]. intros path c0 Hin.
    rewrite !elem_of_cons, elem_of_nil in Hin. by destruct Hin as [?|[?|?]].
  - pose proof (body_run_calls _ _ _ _ _ _ Hb) as [Hreader Hbody].
    split.
    + intros path c1 Hin.
      rewrite !elem_of_cons, elem_of_app, list_elem_of_singleton in Hin.
      destruct Hin as [?|[Heq|[Hin|?]]]; try done.
      * injection Heq as -> ->. eexists (_ :: _ :: body), c.
        split; [reflexivity|]. split; [|done]. simpl.
        apply body_calls_no; [by intros []|done].
      * by apply body_calls_not_open in Hin.
    + intros Hno. exfalso. apply (Hno (Pathlib.str (Pathlib.parse input)) c0).
      rewrite !elem_of_cons. auto.
Qed.

(** C10.  A job whose target format is [AVI] calls the video writer with
    the video codec [mpeg4] and the audio codec [libvorbis], and does call
    it once the open succeeded.  For a target format that the codec table
    does not list, the codec looked up is [libx264], and so is the video
    codec of every call of the video writer. *)
Theorem avi_codecs input (s : Sys W) :
  let tr :=
    calls_since s
      (snd (convert_single_video eng cfg input "AVI"%string s)) in
  (∀ c path codec acodec raised,
     CWriteVideofile c path codec acodec raised ∈ tr →
     codec = "mpeg4"%string ∧ acodec = "libvorbis"%string)
  ∧ (∀ path c0,
       COpen path (inr c0) ∈ tr →
       ∃ out raised,
         CWriteVideofile c0 out "mpeg4" "libvorbis" raised ∈ tr)
  ∧ (∀ fmt,
       codec_map !! fmt = None →
       video_codec fmt = "libx264"%string
       ∧ ∀ input' (s' : Sys W) c path codec acodec raised,
           CWriteVideofile c path codec acodec raised
             ∈ calls_since s'
                 (snd (convert_single_video eng cfg input' fmt s')) →
           codec = "libx264"%string).
Proof.
  assert (Hwrites : ∀ fmt input' (s' : Sys W) c path codec acodec raised,
    CWriteVideofile c path codec acodec raised
      ∈ calls_since s' (snd (convert_single_video eng cfg input' fmt s')) →
    codec = video_codec fmt ∧ acodec = audio_codec fmt).
  { intros fmt input' s' c path codec acodec raised.
    destruct (convert_single_video_run eng cfg input' fmt s')
      as (tr' & lg & res & w & E & R).
    rewrite E. simpl snd. rewrite calls_since_emitted. intros Hin.
    by destruct (job_run_writes _ _ _ _ _ _ _ _ _ R Hin) as (_ & ? & ?). }
  intros tr. split; [|split].
  - intros c path codec acodec raised Hin.
    by apply Hwrites in Hin as [-> ->].
  - subst tr. intros path c0.
    destruct (convert_single_video_run eng cfg input "AVI"%string s)
      as (tr' & lg & res & w & E & R).
    rewrite E. simpl snd. rewrite calls_since_emitted. intros Hin.
    destruct R as [e|e|c1 body c' r Hb].
    + by apply list_elem_of_singleton in Hin.
    + rewrite !elem_of_cons, elem_of_nil in Hin.
      by destruct Hin as [?|[?|?]].
    + pose proof (body_run_calls _ _ _ _ _ _ Hb) as [_ Hbody].
      rewrite !elem_of_cons, elem_of_app, list_elem_of_singleton in Hin.
      destruct Hin as [?|[Heq|[Hin|?]]]; try done;
        [|by apply body_calls_not_open in Hin].
      injection Heq as -> ->.
      inversion Hb as [r' Hf| | |]; subst; try done.
      eexists _, _. simpl. rewrite !elem_of_cons. eauto.
  - intros fmt Hnone. unfold video_codec at 1. rewrite Hnone. split; [done|].
    intros input' s' c path codec acodec raised Hin.
    apply Hwrites in Hin as [-> _]. unfold video_codec. by rewrite Hnone.
Qed.

(** C6.  A GIF job with scale factor 0.5, max width 350 and the
    full-width option unset, on a source of 801 by 601: the global-scale
    stage asks for 400 by 300 (the normalised 400.5 and 300.5); the
    max-width stage comes second, works on the clip already scaled to 400
    by 300, takes the ratio 350/400 = 0.875 and asks for 350 by 262 (the
    normalised 350 and 262.5); the GIF writer then receives the clip of
    350 by 262. *)
Theorem gif_scale_then_cap input (s : Sys W) :
  scale_var cfg = (1 # 2)%Q →
  max_width_var cfg = 350 →
  full_width_var cfg = false →
  let tr :=
    calls_since s
      (snd (convert_single_video eng cfg input "GIF"%string s)) in
  ∀ path c0,
    COpen path (inr c0) ∈ tr → clip_w c0 = 801 → clip_h c0 = 601 →
    let c1 := resized c0 400 300 in
    let c2 := resized c1 350 262 in
    (_normalize_dimension (4005 # 10) = 400
     ∧ _normalize_dimension (3005 # 10) = 300
     ∧ (truediv 350 400 == 875 # 1000)%Q
     ∧ _normalize_dimension 350 = 350
     ∧ _normalize_dimension (300 * (875 # 1000)) = 262)
    ∧ ∃ r1 rest,
        List.filter is_resize tr = CResize c0 400 300 r1 :: rest
        ∧ match r1 with
          | Some _ => rest = []
          | None =>
              ∃ r2,
                rest = [CResize c1 350 262 r2]
                ∧ (r2 = None →
                   ∃ out raised,
                     CWriteGif c2 out (fps_var cfg) raised ∈ tr)
          end.
Proof.
  intros Hscale Hmax Hfull tr path c0 Hin Hw Hh c1 c2.
  split; [by vm_compute|].
  subst tr. revert Hin.
  destruct (convert_single_video_run eng cfg input "GIF"%string s)
    as (tr' & lg & res & w & E & R).
  rewrite E. simpl snd. rewrite calls_since_emitted. intros Hin.
  destruct R as [e|e|c0' body c r Hb].
  { by apply list_elem_of_singleton in Hin. }
  { rewrite !elem_of_cons, elem_of_nil in Hin. by destruct Hin as [?|[?|?]]. }
  pose proof (body_run_calls _ _ _ _ _ _ Hb) as [_ Hbody].
  rewrite !elem_of_cons, elem_of_app, list_elem_of_singleton in Hin.
  destruct Hin as [?|[Heq|[Hin|?]]]; try done;
    [|by apply body_calls_not_open in Hin].
  injection Heq as -> <-. clear Hbody.
  assert (Hstage1 : ∀ tr1 c' r1,
    scale_run cfg c0 tr1 c' r1 →
    tr1 = [CResize c0 400 300 r1]
    ∧ c' = match r1 with Some _ => c0 | None => c1 end).
  { intros tr1 c' r1 Hs.
    destruct Hs as [Hlt|w1 h1 Hlt -> ->|w1 h1 e Hlt -> ->];
      rewrite Hscale in *; try done; by rewrite Hw, Hh. }
  assert (Hstage2 : ∀ tr2 c' r2,
    cap_run cfg c1 tr2 c' r2 →
    tr2 = [CResize c1 350 262 r2]
    ∧ c' = match r2 with Some _ => c1 | None => c2 end).
  { intros tr2 c' r2 Hc.
    destruct Hc as [Hf|Hf Hle|Hf Hgt Hz|w2 h2 Hf Hgt Hnz -> ->
                   |w2 h2 e Hf Hgt Hnz -> ->];
      rewrite ?Hmax in *; simpl in *; try congruence; try lia; done. }
  simpl. rewrite List.filter_app. simpl. rewrite app_nil_r.
  destruct Hb as [r Hf|tr1 c1' e Hf Hs|tr1 c1' tr2 c2' e Hf Hs Hc
                 |tr1 c1' tr2 c2' r Hf Hs Hc]; [done| | |].
  - apply Hstage1 in Hs as [-> _]. by exists (Some e), [].
  - apply Hstage1 in Hs as [-> ->]. apply Hstage2 in Hc as [-> _].
    exists None, [CResize c1 350 262 (Some e)]. split; [done|].
    by exists (Some e).
  - apply Hstage1 in Hs as [-> ->]. apply Hstage2 in Hc as [-> ->].
    exists None, [CResize c1 350 262 None]. split; [done|].
    exists None. split; [done|]. intros _.
    eexists _, r. rewrite !elem_of_cons. simpl. rewrite !elem_of_cons.
    eauto 10.
Qed.

End JobCalls.

(** *** The status-message rotator *)
Section Rotator.

Context {W : Type}.
Variable messages : list string.

Lemma get_random_message_available (s : Sys W) m0 rest :
  available messages (used_messages s) = m0 :: rest →
  ∃ m,
    m ∈ available messages (used_messages s)
    ∧ get_random_message messages s
      = (inr m,
         set_used_messages (remembered (used_messages s) m)
           (set_entropy (List.tl (entropy s)) s)).
Proof.
  unfold available. intros Hav. unfold get_random_message. mrun.
  rewrite Hav. cbv beta iota. unfold random_choice, draw. mrun.
  set (seq := m0 :: rest).
  assert (Hpick : ∀ r, ∃ m, seq !! (r mod length seq)%nat = Some m ∧ m ∈ seq).
  { intros r. destruct (seq !! (r mod length seq)%nat) as [m|] eqn:Hm.
    - exists m. split; [done|]. by eapply list_elem_of_lookup_2.
    - apply lookup_ge_None in Hm.
      pose proof (Nat.mod_upper_bound r (length seq)). simpl in *. lia. }
  destruct (entropy s) as [|r ent] eqn:Hent; cbv beta iota zeta.
  - destruct (Hpick 0%nat) as (m & -> & Hin). exists m. split; [done|].
    unfold remembered. cbv beta iota zeta.
    destruct s; simpl in *; subst; by case_decide.
  - destruct (Hpick r) as (m & -> & Hin). exists m. split; [done|].
    unfold remembered. cbv beta iota zeta.
    destruct s; simpl in *; subst; by case_decide.
Qed.

Lemma get_random_message_exhausted (s : Sys W) :
  available messages (used_messages s) = [] →
  match messages with
  | [] =>
      ∃ e, get_random_message messages s = (inl e, set_used_messages [] s)
  | _ =>
      ∃ m,
        m ∈ messages
        ∧ get_random_message messages s
          = (inr m,
             set_used_messages [m] (set_entropy (List.tl (entropy s)) s))
  end.
Proof.
  unfold available. intros Hav. unfold get_random_message. mrun.
  rewrite Hav. cbv beta iota. unfold random_choice, draw. mrun.
  destruct messages as [|m0 rest]; [by eexists|]. cbv beta iota zeta.
  change (entropy (set_used_messages [] s)) with (entropy s).
  set (seq := m0 :: rest).
  assert (Hpick : ∀ r, ∃ m, seq !! (r mod length seq)%nat = Some m ∧ m ∈ seq).
  { intros r. destruct (seq !! (r mod length seq)%nat) as [m|] eqn:Hm.
    - exists m. split; [done|]. by eapply list_elem_of_lookup_2.
    - apply lookup_ge_None in Hm.
      pose proof (Nat.mod_upper_bound r (length seq)). simpl in *. lia. }
  destruct (entropy s) as [|r ent] eqn:Hent; cbv beta iota zeta.
  - destruct (Hpick 0%nat) as (m & -> & Hin). exists m. split; [done|].
    destruct s; simpl in *; subst; by case_decide.
  - destruct (Hpick r) as (m & -> & Hin). exists m. split; [done|].
    destruct s; simpl in *; subst; by case_decide.
Qed.

(** A selection changes the history and the random source only. *)
Lemma get_random_message_frame (s : Sys W) :
  ∃ res used ent,
    get_random_message messages s
    = (res, set_used_messages used (set_entropy ent s)).
Proof.
  destruct (available messages (used_messages s)) as [|m0 rest] eqn:Hav.
  - apply get_random_message_exhausted in Hav.
    destruct messages.
    + destruct Hav as [e ->]. exists (inl e), [], (entropy s).
      by destruct s.
    + destruct Hav as (m & _ & ->). by eexists _, _, _.
  - apply get_random_message_available in Hav as (m & _ & ->).
    by eexists _, _, _.
Qed.

Lemma available_spec used m :
  m ∈ available messages used ↔ m ∈ messages ∧ m ∉ used.
Proof.
  unfold available. rewrite !list_elem_of_In, filter_In.
  rewrite bool_decide_eq_true. by rewrite !list_elem_of_In.
Qed.

(** With 11 distinct messages and at most 10 remembered ones, a
    candidate is left. *)
Lemma available_nonempty used :
  (11 ≤ distinct messages)%nat → (length used ≤ 10)%nat →
  available messages used ≠ [].
Proof.
  intros Hpool Hused Hav. unfold distinct in Hpool.
  assert (remove_dups messages ⊆+ used) as Hsub.
  { apply NoDup_submseteq; [apply (NoDup_remove_dups messages)|].
    intros m Hm. rewrite elem_of_remove_dups in Hm.
    destruct (decide (m ∈ used)) as [|Hnot]; [done|].
    assert (m ∈ available messages used) as Hin
      by (apply available_spec; by split).
    rewrite Hav in Hin. by apply elem_of_nil in Hin. }
  apply submseteq_length in Hsub. lia.
Qed.

Lemma remembered_length used m :
  (length used ≤ 10)%nat → (length (remembered used m) ≤ 10)%nat.
Proof.
  intros Hlen. unfold remembered. case_decide.
  - rewrite length_drop, length_app. simpl. lia.
  - lia.
Qed.

(** The history is a queue of capacity 10: it keeps the last 10 entries. *)
Lemma remembered_fifo used m :
  (length used ≤ 10)%nat →
  remembered used m
  = drop (length (used ++ [m]) - 10) (used ++ [m]).
Proof.
  intros Hlen. unfold remembered. rewrite length_app. simpl.
  case_decide.
  - by replace (length used + 1 - 10)%nat with 1%nat by lia.
  - by replace (length used + 1 - 10)%nat with 0%nat by lia.
Qed.

Lemma last_entries_app (a b : list string) (k : nat) :
  drop (length (drop (length a - k) a ++ b) - k) (drop (length a - k) a ++ b)
  = drop (length (a ++ b) - k) (a ++ b).
Proof.
  destruct (decide (length a ≤ k)%nat) as [Hle|Hgt].
  - replace (length a - k)%nat with 0%nat by lia. reflexivity.
  - rewrite <- drop_app_le by lia. rewrite drop_drop.
    f_equal. rewrite length_drop, !length_app. lia.
Qed.

(** A message that sits in the history with [length post] younger entries
    is not selected by the next [10 - length post] calls. *)
Lemma emissions_run (n : nat) :
  (11 ≤ distinct messages)%nat →
  ∀ s : Sys W,
    (length (used_messages s) ≤ 10)%nat →
    ∃ ms s',
      emissions messages n s = (inr ms, s')
      ∧ length ms = n
      ∧ used_messages s'
        = drop (length (used_messages s ++ ms) - 10) (used_messages s ++ ms)
      ∧ (∀ x pre post j b,
           used_messages s = pre ++ x :: post →
           (j + length post < 10)%nat → ms !! j = Some b → b ≠ x)
      ∧ (∀ i j a b,
           (i < j ≤ i + 10)%nat →
           ms !! i = Some a → ms !! j = Some b → a ≠ b).
Proof.
  intros Hpool. induction n as [|n IH]; intros s Hlen.
  { exists [], s. split; [reflexivity|]. split; [reflexivity|].
    rewrite app_nil_r. split; [|by split].
    by replace (length (used_messages s) - 10)%nat with 0%nat by lia. }
  destruct (available messages (used_messages s)) as [|m0 rest] eqn:Hav;
    [by apply available_nonempty in Hav|].
  apply get_random_message_available in Hav as (m & Hm & E).
  apply available_spec in Hm as [_ Hfresh].
  set (s1 := set_used_messages (remembered (used_messages s) m)
               (set_entropy (List.tl (entropy s)) s)) in *.
  assert (Hused1 : used_messages s1 = remembered (used_messages s) m)
    by reflexivity.
  destruct (IH s1) as (ms & s' & Ems & Hn & Hhist & Hstay & Hwin).
  { rewrite Hused1. by apply remembered_length. }
  exists (m :: ms), s'. split.
  { simpl. unfold bind. rewrite E, Ems. reflexivity. }
  split; [simpl; by rewrite Hn|].
  assert (Hstay' : ∀ x pre post j b,
    used_messages s = pre ++ x :: post →
    (j + length post < 10)%nat → (m :: ms) !! j = Some b → b ≠ x).
  { intros x pre post [|j] b Hx Hj Hb.
    - injection Hb as <-. intros ->. apply Hfresh. rewrite Hx.
      apply elem_of_app. right. apply elem_of_cons. by left.
    - simpl in Hb. unfold remembered in Hused1. rewrite Hx in Hused1.
      case_decide as Hfull.
      + destruct pre as [|p pre].
        * rewrite length_app in Hfull. simpl in Hfull, Hj. lia.
        * apply (Hstay x pre (post ++ [m]) j b); [|rewrite length_app; simpl; lia|done].
          rewrite Hused1. simpl. rewrite drop_0.
          by rewrite <- app_assoc.
      + apply (Hstay x pre (post ++ [m]) j b); [|rewrite length_app; simpl; lia|done].
        rewrite Hused1. by rewrite <- app_assoc. }
  split; [|split; [exact Hstay'|]].
  - rewrite Hhist, Hused1, remembered_fifo by done.
    rewrite last_entries_app. by rewrite <- app_assoc.
  - intros [|i] [|j] a b Hij Ha Hb; try lia.
    + injection Ha as <-. simpl in Hb.
      assert (∃ pre, used_messages s1 = pre ++ [m]) as [pre Hpre].
      { rewrite Hused1. unfold remembered. case_decide as Hfull.
        - destruct (used_messages s) as [|u used]; [simpl in Hfull; lia|].
          exists used. simpl. by rewrite drop_0.
        - by eexists. }
      intros <-. by apply (Hstay m pre [] j m Hpre); [simpl; lia|done|].
    + simpl in Ha, Hb. apply (Hwin i j a b); [lia|done|done].
Qed.

(** C4.  With a pool of at least 11 distinct messages and a history of at
    most 10 entries (it is empty when a batch starts), every call of the
    selection returns a message; two messages emitted at most 10 calls
    apart are different, so that no window of 10 consecutive emissions
    (not even one of 11) holds a message twice; the history afterwards is
    the last 10 entries of the earlier history followed by the emissions.
    Whatever the pool, a selection made while a candidate is left returns
    a message that is not in the history and appends it, the oldest entry
    leaving when 10 are exceeded; the history is emptied only by a
    selection for which no candidate is left, and then holds the message
    selected. *)
Theorem no_repeat_within_window (n : nat) (s : Sys W) :
  (11 ≤ distinct messages)%nat →
  (length (used_messages s) ≤ 10)%nat →
  (∃ ms s',
     emissions messages n s = (inr ms, s')
     ∧ length ms = n
     ∧ (∀ i j a b,
          (i < j ≤ i + 10)%nat →
          ms !! i = Some a → ms !! j = Some b → a ≠ b)
     ∧ used_messages s'
       = drop (length (used_messages s ++ ms) - 10) (used_messages s ++ ms))
  ∧ (∀ (s0 s1 : Sys W) m,
       get_random_message messages s0 = (inr m, s1) →
       m ∈ messages
       ∧ (available messages (used_messages s0) ≠ [] →
          (m ∉ used_messages s0)
          ∧ used_messages s1 = remembered (used_messages s0) m)
       ∧ (available messages (used_messages s0) = [] →
          used_messages s1 = [m])).
Proof.
  intros Hpool Hlen. split.
  - destruct (emissions_run n Hpool s Hlen)
      as (ms & s' & E & Hn & Hhist & _ & Hwin).
    by exists ms, s'.
  - intros s0 s1 m E.
    destruct (available messages (used_messages s0)) as [|m0 rest] eqn:Hav.
    + apply get_random_message_exhausted in Hav.
      destruct messages as [|m1 pool]; [destruct Hav as [e He]; congruence|].
      destruct Hav as (m' & Hin & E'). rewrite E' in E.
      injection E as <- <-. by repeat split.
    + apply get_random_message_available in Hav as (m' & Hin & E').
      rewrite E' in E. injection E as <- <-.
      apply available_spec in Hin as [Hin Hfresh]. by repeat split.
Qed.

End Rotator.

(** *** The timers *)
Section Timers.

Context {W : Type}.
Variable messages : list string.

Lemma climb_app m x vs y ws z :
  climb m x vs y → climb m y ws z → climb m x (vs ++ ws) z.
Proof.
  induction 1 as [x|x v vs y Hxv Hvm _ IH]; intros Hws; [done|].
  simpl. apply climb_tick; auto.
Qed.



Lemma ticked_refl (s : Sys W) : ticked s s.
Proof.
  unfold ticked. repeat split.
  - exists []. rewrite app_nil_r. split; [done|constructor].
  - exists []. by rewrite app_nil_r.
Qed.

Lemma ticked_trans (s1 s2 s3 : Sys W) :
  ticked s1 s2 → ticked s2 s3 → ticked s1 s3.
Proof.
  intros (Ha1 & Ha2 & Ha3 & Ha4 & Ha5 & (vs & Hvs & Hc) & (lg & Hlg & Hf))
         (Hb1 & Hb2 & Hb3 & Hb4 & Hb5 & (ws & Hws & Hd) & (lh & Hlh & Hg)).
  unfold ticked. repeat split; try congruence.
  - exists (vs ++ ws). split; [rewrite Hws, Hvs; by rewrite app_assoc|].
    rewrite Ha1, Ha2 in Hd. by eapply climb_app.
  - exists (lg ++ lh). split; [rewrite Hlh, Hlg; by rewrite app_assoc|].
    rewrite List.filter_app, Hf, Hg. done.
Qed.

Lemma py_min_bounds (x inc m : Q) :
  (0 <= inc)%Q → (x < m)%Q →
  (x <= py_min (x + inc) m)%Q ∧ (py_min (x + inc) m <= m)%Q.
Proof.
  intros Hinc Hlt. unfold py_min.
  destruct (Qlt_le_dec m (x + inc)) as [H|H]; split; lra.
Qed.

Lemma animate_ticked (s : Sys W) :
  (current_file_start_progress s <= current_file_end_progress s)%Q →
  ticked s (animate_simulated_progress s).
Proof.
  intros Hrange. unfold animate_simulated_progress.
  destruct (simulated_progress_running s) eqn:Hrun; [|apply ticked_refl].
  simpl negb. cbv beta iota.
  fold (ceiling (current_file_start_progress s) (current_file_end_progress s)).
  destruct (py_lt (simulated_progress s) _) eqn:Hlt.
  - cbv zeta. simpl simulated_progress_running. rewrite Hrun.
    unfold ticked. simpl. repeat split.
    + eexists [_]. split; [reflexivity|].
      unfold py_lt in Hlt. destruct (Qlt_le_dec _ _) as [Hlt'|]; [|done].
      destruct (py_min_bounds (simulated_progress s)
                  ((current_file_end_progress s
                    - current_file_start_progress s) * (2 # 100))
                  (ceiling (current_file_start_progress s)
                     (current_file_end_progress s))) as [H1 H2];
        [lra|done|].
      apply climb_tick; [done|done|constructor].
    + exists []. by rewrite app_nil_r.
  - rewrite Hrun. unfold ticked. simpl. repeat split.
    + exists []. rewrite app_nil_r. split; [done|constructor].
    + exists []. by rewrite app_nil_r.
Qed.

Lemma start_simulated_progress_ticked (s : Sys W) :
  (current_file_start_progress s <= current_file_end_progress s)%Q →
  ticked s (start_simulated_progress s).
Proof.
  intros Hrange. unfold start_simulated_progress.
  apply (ticked_trans _ (set_simulated_progress_running true s)).
  - unfold ticked. simpl. repeat split.
    + exists []. rewrite app_nil_r. split; [done|constructor].
    + exists []. by rewrite app_nil_r.
  - by apply animate_ticked.
Qed.

Lemma stop_simulated_progress_ticked (s : Sys W) :
  ticked s (stop_simulated_progress s).
Proof.
  unfold ticked. simpl. repeat split.
  - exists []. rewrite app_nil_r. split; [done|constructor].
  - exists []. by rewrite app_nil_r.
Qed.

Lemma show_funny_message_ticked (s : Sys W) :
  ticked s (snd (show_funny_message messages s)).
Proof.
  unfold show_funny_message. mrun.
  destruct (funny_message_running s) eqn:Hrun; [|apply ticked_refl].
  cbv beta iota delta [negb].
  destruct (get_random_message_frame messages s) as (res & used & ent & ->).
  destruct res as [e|m].
  { unfold ticked. simpl. repeat split.
    - exists []. rewrite app_nil_r. split; [done|constructor].
    - exists []. by rewrite app_nil_r. }
  unfold log_status, random_randint, draw. mrun. simpl entropy.
  destruct ent as [|r ent]; simpl; rewrite Hrun; simpl;
    unfold ticked; simpl; repeat split;
    solve [ exists []; rewrite app_nil_r; split; [done|constructor]
          | by eexists [_] ].
Qed.

Lemma fire_ticked t (s : Sys W) :
  (current_file_start_progress s <= current_file_end_progress s)%Q →
  ticked s (fire messages t s).
Proof.
  intros Hrange. destruct t; simpl.
  - by apply animate_ticked.
  - apply show_funny_message_ticked.
Qed.

Lemma fire_all_ticked ts (s : Sys W) :
  (current_file_start_progress s <= current_file_end_progress s)%Q →
  ticked s (fire_all messages ts s).
Proof.
  revert s. induction ts as [|t ts IH]; intros s Hrange; [apply ticked_refl|].
  unfold fire_all. simpl. fold (fire_all messages ts (fire messages t s)).
  pose proof (fire_ticked t s Hrange) as Ht.
  apply (ticked_trans _ _ _ Ht). apply IH.
  destruct Ht as (-> & -> & _). done.
Qed.


End Timers.

(** *** The loop over the files *)
Section Batch.

Context {W : Type}.
Variable eng : Engine W.
Variable cfg : Config.
Variable messages : list string.

Lemma path_str_truthy (p : Pathlib.Path) : str_truthy (Pathlib.str p) = true.
Proof.
  unfold Pathlib.str. cbv zeta.
  destruct (str_truthy (Pathlib.root p +:+ _)) eqn:H; [exact H|reflexivity].
Qed.

Lemma job_run_log fmt dir path name out tr lg res :
  job_run cfg fmt dir path name out tr lg res →
  List.filter is_outcome_line lg = [].
Proof. destruct 1; reflexivity. Qed.

(** The start of a turn sets the range and the simulated value, then
    lets the timers run. *)
Lemma begin_file_run sched index total (s : Sys W) :
  0 < total →
  ∃ s0 s1,
    begin_file messages sched index total s = (inr tt, s1)
    ∧ ticked s0 s1
    ∧ current_file_start_progress s0 = truediv (index - 1) total
    ∧ current_file_end_progress s0 = truediv index total
    ∧ simulated_progress s0 = truediv (index - 1) total
    ∧ progress_bar s0 = progress_bar s
    ∧ status_text s0 = status_text s
    ∧ calls s0 = calls s
    ∧ world s0 = world s.
Proof.
  intros Htotal.
  assert (Hrange : (truediv (index - 1) total <= truediv index total)%Q)
    by (apply truediv_le; lia).
  unfold begin_file. mrun.
  destruct (decide (total = 0)) as [|_]; [lia|].
  set (s0 := set_progress_label (LabelConverting index total) _).
  exists s0. eexists. split; [reflexivity|].
  split; [|by repeat split].
  assert (H0 : (current_file_start_progress s0
                <= current_file_end_progress s0)%Q) by exact Hrange.
  pose proof (fire_all_ticked messages (sched index 0%nat) s0 H0) as T1.
  eapply ticked_trans; [exact T1|].
  assert (H1 : (current_file_start_progress
                  (fire_all messages (sched index 0%nat) s0)
                <= current_file_end_progress
                     (fire_all messages (sched index 0%nat) s0))%Q).
  { destruct T1 as (-> & -> & _). exact H0. }
  pose proof (start_simulated_progress_ticked _ H1) as T2.
  eapply ticked_trans; [exact T2|].
  apply fire_all_ticked. destruct T2 as (-> & -> & _). exact H1.
Qed.

(** What a turn of the loop does, whatever the engine answers and
    whichever timers fire. *)
Lemma process_file_run sched fmt index total file sc (s : Sys W) :
  0 < total →
  let lo := truediv (index - 1) total in
  let hi := truediv index total in
  ∃ run s' vs x lg,
    process_file eng cfg messages sched fmt index total file sc s
    = (inr (sc + (if succeeded (snd run) then 1 else 0)), s')
    ∧ job_of cfg fmt file run
    ∧ current_file_start_progress s' = lo
    ∧ current_file_end_progress s' = hi
    ∧ calls s' = calls s ++ fst run
    ∧ progress_bar s' = progress_bar s ++ vs ++ [hi]
    ∧ climb (ceiling lo hi) lo vs x
    ∧ status_text s' = status_text s ++ lg
    ∧ List.filter is_outcome_line lg = [outcome_line file (snd run)].
Proof.
  intros Htotal lo hi.
  assert (Hrange : (lo <= hi)%Q) by (apply truediv_le; lia).
  destruct (begin_file_run sched index total s Htotal)
    as (s0 & s1 & E1 & T1 & Hlo0 & Hhi0 & Hsim0 & Hbar0 & Hlog0 & Hcalls0 & Hw0).
  fold lo in Hlo0, Hsim0. fold hi in Hhi0.
  destruct T1 as (Hlo1 & Hhi1 & _ & Hw1 & Hcalls1
                  & (vs1 & Hbar1 & Hclimb1) & (lg1 & Hlog1 & Hf1)).
  rewrite Hlo0, Hhi0, Hsim0 in *.
  destruct (convert_single_video_run eng cfg file fmt s1)
    as (tr & lgj & res & w & E2 & R).
  set (s2 := emitted tr lgj w s1) in *.
  assert (Hrange2 : (current_file_start_progress s2
                     <= current_file_end_progress s2)%Q).
  { change (current_file_start_progress s1
            <= current_file_end_progress s1)%Q.
    by rewrite Hlo1, Hhi1. }
  pose proof (job_run_log _ _ _ _ _ _ _ _ R) as Hfj.
  exists (tr, res).
  unfold process_file, try_except.
  unfold bind at 1. rewrite E1. unfold bind at 1. rewrite E2.
  destruct res as [e|result].
  - (* the job raised: the handler runs *)
    unfold fail_file. mrun. destruct (decide (total = 0)) as [|_]; [lia|].
    unfold log_status. mrun.
    pose proof (stop_simulated_progress_ticked s2) as T3.
    assert (H3 : (current_file_start_progress (stop_simulated_progress s2)
                  <= current_file_end_progress
                       (stop_simulated_progress s2))%Q) by exact Hrange2.
    pose proof (fire_all_ticked messages (sched index 3%nat) _ H3) as T4.
    pose proof (ticked_trans _ _ _ T3 T4) as T.
    set (s3 := fire_all messages (sched index 3%nat)
                 (stop_simulated_progress s2)) in *.
    destruct T as (Hlo3 & Hhi3 & _ & Hw3 & Hcalls3
                   & (vs3 & Hbar3 & Hclimb3) & (lg3 & Hlog3 & Hf3)).
    eexists _, (vs1 ++ vs3), _, (lg1 ++ lgj ++ lg3 ++ [_]).
    split; [simpl; by rewrite Z.add_0_r|].
    split; [by exists lgj|].
    simpl. rewrite Hlo3, Hhi3, Hcalls3, Hbar3, Hlog3. subst s2. simpl.
    rewrite Hlo1, Hhi1, Hcalls1, Hbar1, Hlog1, Hcalls0, Hbar0, Hlog0.
    repeat split; try done.
    + by rewrite <- !app_assoc.
    + eapply climb_app; [exact Hclimb1|].
      change (simulated_progress (emitted tr lgj w s1))
        with (simulated_progress s1) in Hclimb3.
      change (current_file_start_progress (emitted tr lgj w s1))
        with (current_file_start_progress s1) in Hclimb3.
      change (current_file_end_progress (emitted tr lgj w s1))
        with (current_file_end_progress s1) in Hclimb3.
      by rewrite Hlo1, Hhi1 in Hclimb3.
    + by rewrite <- !app_assoc.
    + rewrite !List.filter_app, Hf1, Hfj, Hf3. reflexivity.
  - (* the job returned: the turn goes on *)
    assert (Htruthy : str_truthy result = true).
    { inversion R as [| |c0 body c r Hb Htr Hlg Hres]; subst.
      destruct r; [done|]. injection Hres as <-. apply path_str_truthy. }
    unfold end_file. mrun. rewrite Htruthy. unfold log_status. mrun.
    pose proof (fire_all_ticked messages (sched index 2%nat) _ Hrange2) as T2.
    set (s2' := fire_all messages (sched index 2%nat) s2) in *.
    pose proof (stop_simulated_progress_ticked s2') as T3.
    assert (H3 : (current_file_start_progress (stop_simulated_progress s2')
                  <= current_file_end_progress
                       (stop_simulated_progress s2'))%Q).
    { destruct T2 as (H1 & H2 & _).
      change (current_file_start_progress s2'
              <= current_file_end_progress s2')%Q.
      by rewrite H1, H2. }
    pose proof (fire_all_ticked messages (sched index 3%nat) _ H3) as T4.
    pose proof (ticked_trans _ _ _ T2 (ticked_trans _ _ _ T3 T4)) as T.
    set (s3 := fire_all messages (sched index 3%nat)
                 (stop_simulated_progress s2')) in *.
    destruct T as (Hlo3 & Hhi3 & _ & Hw3 & Hcalls3
                   & (vs3 & Hbar3 & Hclimb3) & (lg3 & Hlog3 & Hf3)).
    eexists _, (vs1 ++ vs3), _, (lg1 ++ lgj ++ lg3 ++ [_]).
    split; [reflexivity|].
    split; [by exists lgj|].
    simpl. rewrite Hlo3, Hhi3, Hcalls3, Hbar3, Hlog3. subst s2. simpl.
    rewrite Hlo1, Hhi1, Hcalls1, Hbar1, Hlog1, Hcalls0, Hbar0, Hlog0.
    repeat split; try done.
    + by rewrite <- !app_assoc.
    + eapply climb_app; [exact Hclimb1|].
      change (simulated_progress (emitted tr lgj w s1))
        with (simulated_progress s1) in Hclimb3.
      change (current_file_start_progress (emitted tr lgj w s1))
        with (current_file_start_progress s1) in Hclimb3.
      change (current_file_end_progress (emitted tr lgj w s1))
        with (current_file_end_progress s1) in Hclimb3.
      by rewrite Hlo1, Hhi1 in Hclimb3.
    + by rewrite <- !app_assoc.
    + rewrite !List.filter_app, Hf1, Hfj, Hf3. reflexivity.
Qed.

(** The turns of the loop follow one another, one per file. *)
Lemma for_each_file_run sched fmt total files :
  0 < total →
  ∀ index sc (s : Sys W),
    ∃ runs s' lg,
      for_each_file eng cfg messages sched fmt total files index sc s
      = (inr (sc + Z.of_nat
                     (length (List.filter succeeded (map snd runs)))), s')
      ∧ Forall2 (job_of cfg fmt) files runs
      ∧ calls s' = calls s ++ concat (map fst runs)
      ∧ status_text s' = status_text s ++ lg
      ∧ List.filter is_outcome_line lg
        = zip_with outcome_line files (map snd runs).
Proof.
  intros Htotal. induction files as [|file files IH]; intros index sc s.
  { exists [], s, []. simpl. rewrite Z.add_0_r, !app_nil_r.
    repeat split; constructor. }
  destruct (process_file_run sched fmt index total file sc s Htotal)
    as (run & s1 & vs & x & lg1 & E1 & Hjob & _ & _ & Hcalls1 & _ & _
        & Hlog1 & Hf1).
  destruct (IH (index + 1)
              (sc + (if succeeded (snd run) then 1 else 0)) s1)
    as (runs & s' & lg & E & Hjobs & Hcalls & Hlog & Hf).
  exists (run :: runs), s', (lg1 ++ lg).
  split.
  { simpl. unfold bind. rewrite E1, E. f_equal. f_equal.
    destruct (succeeded (snd run)); simpl; lia. }
  split; [by constructor|].
  split; [rewrite Hcalls, Hcalls1; simpl; by rewrite app_assoc|].
  split; [rewrite Hlog, Hlog1; by rewrite app_assoc|].
  rewrite List.filter_app, Hf1, Hf. reflexivity.
Qed.

(** The first message is shown when the pool is not empty. *)
Lemma show_funny_message_returns (s : Sys W) :
  messages ≠ [] →
  ∃ s', show_funny_message messages s = (inr tt, s').
Proof.
  intros Hpool. unfold show_funny_message. mrun.
  destruct (funny_message_running s); cbv beta iota delta [negb];
    [|by eexists].
  assert (∃ m s1, get_random_message messages s = (inr m, s1))
    as (m & s1 & ->).
  { destruct (available messages (used_messages s)) as [|m0 rest] eqn:Hav.
    - apply get_random_message_exhausted in Hav.
      destruct messages; [done|]. destruct Hav as (m & _ & ->).
      by eexists _, _.
    - apply get_random_message_available in Hav as (m & _ & ->).
      by eexists _, _. }
  unfold log_status, random_randint, draw. mrun.
  simpl entropy. destruct (entropy s1); simpl;
    match goal with |- context [if ?b then _ else _] => destruct b end;
    by eexists.
Qed.

(** C1.  A batch never aborts on a failing job.  When the message pool
    is not empty, [convert_videos] returns normally and the calls it made
    are the calls of one job per selected file, in the order of the files,
    each job being a run of [convert_single_video] on its file, so that
    the jobs after a failing one are all attempted; the status area
    received one outcome line per file in that order, a failure line for
    a job that raised and a success line for one that returned; the last
    line is the summary, which counts the jobs that returned and the
    files.  In particular when the batch has three jobs of which exactly
    the second raises, the summary reads 2 of 3. *)
Theorem batch_survives_failures sched (s : Sys W) :
  messages ≠ [] →
  ∃ runs s',
    convert_videos eng cfg messages sched s = (inr tt, s')
    ∧ Forall2 (job_of cfg (format_var cfg)) (selected_files cfg) runs
    ∧ calls_since s s' = concat (map fst runs)
    ∧ List.filter is_outcome_line (log_since s s')
      = zip_with outcome_line (selected_files cfg) (map snd runs)
    ∧ last (status_text s')
      = Some (LogSummary
                (Z.of_nat (length (List.filter succeeded (map snd runs))))
                (Z.of_nat (length (selected_files cfg))))
    ∧ (∀ t1 out1 t2 e t3 out3,
         runs = [(t1, inr out1); (t2, inl e); (t3, inr out3)] →
         last (status_text s') = Some (LogSummary 2 3)).
Proof.
  intros Hpool. unfold convert_videos. cbv zeta.
  set (fmt := format_var cfg). set (files := selected_files cfg).
  set (total := Z.of_nat (length files)).
  unfold start_funny_messages, log_status. mrun.
  set (sA := set_funny_message_running true _).
  destruct (show_funny_message_returns sA Hpool) as [sB EB].
  pose proof (show_funny_message_ticked messages sA) as TB.
  rewrite EB in TB |- *. simpl snd in TB.
  destruct TB as (_ & _ & _ & _ & HcallsB & _ & (lgB & HlogB & HfB)).
  set (sC := set_status_text _ (set_status_text _ sB)).
  assert (∃ runs s' lg,
    for_each_file eng cfg messages sched fmt total files 1 0 sC
    = (inr (Z.of_nat (length (List.filter succeeded (map snd runs)))), s')
    ∧ Forall2 (job_of cfg fmt) files runs
    ∧ calls s' = calls sC ++ concat (map fst runs)
    ∧ status_text s' = status_text sC ++ lg
    ∧ List.filter is_outcome_line lg
      = zip_with outcome_line files (map snd runs))
    as (runs & sD & lg & E & Hjobs & Hcalls & Hlog & Hf).
  { destruct (Z.lt_ge_cases 0 total) as [Hpos|Hzero].
    - exact (for_each_file_run sched fmt total files Hpos 1 0 sC).
    - assert (files = []) as ->
        by (apply length_zero_iff_nil; subst total; lia).
      exists [], sC, []. simpl. rewrite !app_nil_r. repeat split.
      constructor. }
  rewrite E. exists runs. eexists. split; [reflexivity|].
  split; [exact Hjobs|].
  assert (Hlast : last (status_text sD ++ [LogRule]
                        ++ [LogSummary
                              (Z.of_nat (length (List.filter succeeded
                                                   (map snd runs))))
                              total])
                  = Some (LogSummary
                            (Z.of_nat (length (List.filter succeeded
                                                 (map snd runs))))
                            total)).
  { rewrite app_assoc. apply last_snoc. }
  split; [|split; [|split]].
  - unfold calls_since. simpl. rewrite Hcalls. subst sC. simpl.
    rewrite HcallsB. subst sA. simpl. apply drop_app_length.
  - unfold log_since. simpl. rewrite Hlog. subst sC. simpl.
    rewrite HlogB. subst sA. simpl.
    rewrite <- !app_assoc. rewrite drop_app_length.
    rewrite !List.filter_app, HfB, Hf. simpl. by rewrite app_nil_r.
  - simpl. rewrite <- app_assoc. exact Hlast.
  - intros t1 out1 t2 e t3 out3 Hruns. simpl.
    rewrite <- app_assoc, Hlast. subst runs.
    apply Forall2_length in Hjobs. subst total. rewrite Hjobs.
    reflexivity.
Qed.



End Batch.

(** *** Dimension normalisation *)

(** C5.  [_normalize_dimension] is defined on every rational, hence on
    every finite float, raises nothing, and its result is an even integer
    not below 2, also for a zero or negative argument. *)
Theorem normalize_dimension_even_at_least_2 (x : Q) :
  Z.even (_normalize_dimension x) = true ∧ 2 ≤ _normalize_dimension x.
Proof.
  unfold _normalize_dimension. split; [|lia].
  cbv zeta. case_decide as Hodd.
  - apply Z.max_case; [reflexivity|].
    rewrite Z.even_sub, <- Z.negb_odd. rewrite Zmod_odd in Hodd.
    by destruct (Z.odd (py_round x)).
  - apply Z.max_case; [reflexivity|].
    rewrite Zmod_even in Hodd.
    destruct (Z.even (py_round x)); [reflexivity|lia].
Qed.

(** *** Checks of the model on concrete values *)

Example py_round_ties_to_even :
  map py_round [1 # 2; 3 # 2; 5 # 2; -1 # 2; -3 # 2; 4005 # 10; 2625 # 10]%Q
  = [0; 2; 2; 0; -2; 400; 262].
Proof. reflexivity. Qed.

Example normalize_dimension_values :
  map _normalize_dimension [0; -7; 1; 3; 5 # 2; 7 # 2; 700; 1401 # 2]%Q
  = [2; 2; 2; 2; 2; 4; 700; 700].
Proof. reflexivity. Qed.

Example pathlib_values :
  Pathlib.str (Pathlib.parse "//a//b/./c/") = "//a/b/c"%string
  ∧ Pathlib.str (Pathlib.parse "") = "."%string
  ∧ Pathlib.str (Pathlib.parent (Pathlib.parse "/a/b/clip.MOV"))
    = "/a/b"%string
  ∧ Pathlib.str (Pathlib.parent (Pathlib.parse "clip.MOV")) = "."%string
  ∧ Pathlib.stem (Pathlib.parse "/a/b/clip.MOV") = "clip"%string
  ∧ Pathlib.stem (Pathlib.parse "a.tar.gz") = "a.tar"%string
  ∧ Pathlib.stem (Pathlib.parse ".bashrc") = ".bashrc"%string
  ∧ Pathlib.name (Pathlib.parse "/a/b/clip.MOV") = "clip.MOV"%string
  ∧ lower "WebM" = "webm"%string.
Proof. repeat split. Qed.

Example gif_job_calls :
  calls
    (snd (convert_single_video demo_engine (demo_config "GIF")
            "/a/b/clip.MOV" "GIF" demo_init))
  = [CMkdir "/a/b" None;
     COpen "/a/b/clip.MOV" (inr (mkClip 0 801 601));
     CResize (mkClip 0 801 601) 400 300 None;
     CResize (mkClip 0 400 300) 350 262 None;
     CWriteGif (mkClip 0 350 262) "/a/b/clip.gif" 15 None;
     CClose (mkClip 0 350 262)].
Proof. vm_compute. reflexivity. Qed.

Example failed_write_still_closes :
  convert_single_video demo_engine (demo_config "MP4") "/v/b.mov" "MP4"
    demo_init
  = (inl "EncodeError"%string,
     emitted
       [CMkdir "/v" None;
        COpen "/v/b.mov" (inr (mkClip 0 801 601));
        CWriteVideofile (mkClip 0 801 601) "/v/b.mp4" "libx264" "aac"
          (Some "EncodeError"%string);
        CClose (mkClip 0 801 601)]
       [LogConverting "b.mov"] 1%nat demo_init).
Proof. vm_compute. reflexivity. Qed.

Example demo_batch_log :
  List.filter is_outcome_line
    (status_text
       (snd (convert_videos demo_engine (demo_config "MP4") THINKING_MESSAGES
               demo_schedule demo_init)))
  = [LogDone "a.mov" "a.mp4"; LogFailed "b.mov" "EncodeError";
     LogDone "c.mov" "c.mp4"].
Proof. vm_compute. reflexivity. Qed.

(** *** Concrete runs *)

Lemma batch_survives_failures_witness :
  THINKING_MESSAGES ≠ []
  ∧ ∃ (runs : list (list Call * (Exn + string))) s',
      convert_videos demo_engine (demo_config "MP4") THINKING_MESSAGES
        demo_schedule demo_init = (inr tt, s')
      ∧ map succeeded (map snd runs) = [true; false; true]
      ∧ last (status_text s') = Some (LogSummary 2 3).
Proof.
  split; [discriminate|].
  destruct (batch_survives_failures demo_engine (demo_config "MP4")
              THINKING_MESSAGES demo_schedule demo_init)
    as (runs & s' & E & Hjobs & Hcalls & Hlines & Hlast & Hthree);
    [discriminate|].
  exists runs, s'. split; [exact E|].
  vm_compute in E. injection E as <-.
  destruct runs as [|[t1 r1] [|[t2 r2] [|[t3 r3] [|? ?]]]];
    try (apply Forall2_length in Hjobs; discriminate Hjobs).
  match type of Hlines with
  | ?l = _ =>
      let l' := eval vm_compute in l in
      change l with l' in Hlines
  end.
  change (selected_files (demo_config "MP4")) with demo_files in Hlines.
  unfold demo_files in Hlines.
  cbn [zip_with map snd outcome_line] in Hlines.
  injection Hlines as H1 H2 H3.
  destruct r1 as [e1|o1]; [discriminate H1|].
  destruct r2 as [e2|o2]; [|discriminate H2].
  destruct r3 as [e3|o3]; [discriminate H3|].
  split; [reflexivity|]. eapply Hthree. reflexivity.
Defined.



Lemma no_repeat_within_window_witness :
  (11 ≤ distinct THINKING_MESSAGES)%nat
  ∧ (length (used_messages demo_init) ≤ 10)%nat
  ∧ ∃ ms s',
      emissions THINKING_MESSAGES 25 demo_init = (inr ms, s')
      ∧ length ms = 25%nat
      ∧ (∀ i j a b,
           (i < j ≤ i + 10)%nat →
           ms !! i = Some a → ms !! j = Some b → a ≠ b).
Proof.
  assert (H11 : (11 ≤ distinct THINKING_MESSAGES)%nat) by (vm_compute; lia).
  assert (H10 : (length (used_messages demo_init) ≤ 10)%nat)
    by (simpl; lia).
  split; [exact H11|]. split; [exact H10|].
  destruct (no_repeat_within_window THINKING_MESSAGES 25 demo_init H11 H10)
    as [(ms & s' & E & Hlen & Hwin & _) _].
  exists ms, s'. split; [exact E|]. split; [exact Hlen|exact Hwin].
Defined.

Lemma gif_scale_then_cap_witness :
  ∃ r1 rest,
    List.filter is_resize
      (calls_since demo_init
         (snd (convert_single_video demo_engine (demo_config "GIF")
                 "/a/b/clip.MOV" "GIF" demo_init)))
    = CResize (mkClip 0 801 601) 400 300 r1 :: rest.
Proof.
  destruct (gif_scale_then_cap demo_engine (demo_config "GIF")
              "/a/b/clip.MOV" demo_init eq_refl eq_refl eq_refl
              "/a/b/clip.MOV"%string (mkClip 0 801 601))
    as (_ & r1 & rest & E & _).
  - vm_compute. apply list_elem_of_further, list_elem_of_here.
  - reflexivity.
  - reflexivity.
  - by exists r1, rest.
Defined.

Lemma output_path_resolution_witness :
  Pathlib.str
    (Pathlib.div (Pathlib.parent (Pathlib.parse "/a/b/clip.MOV"))
       (Pathlib.stem (Pathlib.parse "/a/b/clip.MOV") +:+ "." +:+ lower "gif"))
  = "/a/b/clip.gif"%string.
Proof.
  destruct (output_path_resolution demo_engine (demo_config "gif")
              "/a/b/clip.MOV" "gif" demo_init)
    as (_ & _ & _ & _ & Hexample).
  destruct Hexample as [_ Hout]; [reflexivity|reflexivity|reflexivity|].
  exact Hout.
Defined.

Lemma clip_closed_exactly_once_witness :
  ∃ before c,
    calls_since demo_init
      (snd (convert_single_video demo_engine (demo_config "MP4")
              "/v/b.mov" "MP4" demo_init))
    = before ++ [CClose c]
    ∧ List.filter is_close before = []
    ∧ clip_reader c = 0%nat.
Proof.
  destruct (clip_closed_exactly_once demo_engine (demo_config "MP4")
              "/v/b.mov" "MP4" demo_init) as [Hopened _].
  apply (Hopened "/v/b.mov"%string (mkClip 0 801 601)).
  vm_compute. apply list_elem_of_further, list_elem_of_here.
Defined.


Lemma avi_codecs_witness :
  ∃ out raised,
    CWriteVideofile (mkClip 0 801 601) out "mpeg4" "libvorbis" raised
      ∈ calls_since demo_init
          (snd (convert_single_video demo_engine (demo_config "AVI")
                  "/v/a.mov" "AVI" demo_init)).
Proof.
  destruct (avi_codecs demo_engine (demo_config "AVI") "/v/a.mov" demo_init)
    as (_ & Hcalled & _).
  apply (Hcalled "/v/a.mov"%string (mkClip 0 801 601)).
  vm_compute. apply list_elem_of_further, list_elem_of_here.
Defined.

(** ** Further properties of the dimension normalisation *)

Lemma py_round_floor (x : Q) :
  let f := Qfloor x in
  (py_round x = f ∧ (x - inject_Z f <= 1 # 2)%Q)
  ∨ (py_round x = f + 1 ∧ (1 # 2 <= x - inject_Z f)%Q).
Proof.
  intros f. unfold py_round. fold f.
  destruct ((x - inject_Z f ?= 1 # 2)%Q) eqn:Hc.
  - apply Qeq_alt in Hc. destruct (Z.even f); [left|right];
      (split; [reflexivity|rewrite Hc; apply Qle_refl]).
  - apply Qlt_alt in Hc. left. split; [reflexivity|by apply Qlt_le_weak].
  - apply Qgt_alt in Hc. right. split; [reflexivity|by apply Qlt_le_weak].
Qed.

(** [round] stays within one half of its argument. *)
Lemma py_round_near (x : Q) :
  (x - (1 # 2) <= inject_Z (py_round x))%Q
  ∧ (inject_Z (py_round x) <= x + (1 # 2))%Q.
Proof.
  pose proof (Qfloor_le x) as Hlo. pose proof (Qlt_floor x) as Hhi.
  rewrite inject_Z_plus in Hhi. change (inject_Z 1) with 1%Q in Hhi.
  destruct (py_round_floor x) as [[-> H]|[-> H]]; cbv zeta in H.
  - split; lra.
  - rewrite inject_Z_plus. change (inject_Z 1) with 1%Q. split; lra.
Qed.

Lemma py_round_mono (x y : Q) : (x <= y)%Q → py_round x ≤ py_round y.
Proof.
  intros Hxy. pose proof (Qfloor_resp_le x y Hxy) as Hf.
  destruct (decide (Qfloor x = Qfloor y)) as [Heq|Hne].
  - unfold py_round. rewrite <- Heq.
    destruct (Qcompare_spec (x - inject_Z (Qfloor x)) (1 # 2)) as [Hx|Hx|Hx];
      destruct (Qcompare_spec (y - inject_Z (Qfloor x)) (1 # 2))
        as [Hy|Hy|Hy];
      try (destruct (Z.even (Qfloor x))); try lia; exfalso; lra.
  - destruct (py_round_floor x) as [[-> _]|[-> _]];
      destruct (py_round_floor y) as [[-> _]|[-> _]]; lia.
Qed.

Lemma py_round_int (k : Z) : py_round (inject_Z k) = k.
Proof.
  unfold py_round. rewrite Qfloor_Z. cbv zeta.
  destruct (Qcompare_spec (inject_Z k - inject_Z k) (1 # 2)) as [H|H|H];
    [exfalso; lra|reflexivity|exfalso; lra].
Qed.

Lemma normalize_dimension_safe (x : Q) :
  Z.even (_normalize_dimension x) = true ∧ 2 ≤ _normalize_dimension x.
Proof.
  unfold _normalize_dimension. split; [|lia].
  cbv zeta. case_decide as Hodd.
  - apply Z.max_case; [reflexivity|].
    rewrite Z.even_sub, <- Z.negb_odd. rewrite Zmod_odd in Hodd.
    by destruct (Z.odd (py_round x)).
  - apply Z.max_case; [reflexivity|]. rewrite Zmod_even in Hodd.
    destruct (Z.even (py_round x)); [reflexivity|lia].
Qed.


(** X1.  An even integer from 2 upwards is returned as it is, so that
    normalising twice is normalising once. *)
Theorem normalize_dimension_fixed_points (k : Z) (x : Q) :
  (2 ≤ k → Z.even k = true → _normalize_dimension (inject_Z k) = k)
  ∧ _normalize_dimension (inject_Z (_normalize_dimension x))
    = _normalize_dimension x.
Proof.
  assert (Hfix : ∀ n, 2 ≤ n → Z.even n = true →
    _normalize_dimension (inject_Z n) = n).
  { intros n Hn Heven. unfold _normalize_dimension. rewrite py_round_int.
    cbv zeta. rewrite Zmod_even, Heven. case_decide; [done|lia]. }
  split; [apply Hfix|].
  destruct (normalize_dimension_safe x) as [Heven Hmin]. by apply Hfix.
Qed.

(** X2.  The normalisation is monotone: a larger request never gives a
    smaller dimension. *)
Theorem normalize_dimension_monotone (x y : Q) :
  (x <= y)%Q → _normalize_dimension x ≤ _normalize_dimension y.
Proof.
  intros Hxy. apply py_round_mono in Hxy. unfold _normalize_dimension.
  cbv zeta. set (n := py_round x) in *. set (m := py_round y) in *.
  destruct (decide (n = m)) as [->|Hne]; [lia|].
  repeat case_decide; lia.
Qed.

(** X3.  The result is never more than one pixel and a half below the
    request, and for a request of at least 1.5 never more than half a
    pixel above it. *)
Theorem normalize_dimension_near (x : Q) :
  (x - (3 # 2) <= inject_Z (_normalize_dimension x))%Q
  ∧ ((3 # 2 <= x)%Q → (inject_Z (_normalize_dimension x) <= x + (1 # 2))%Q).
Proof.
  destruct (py_round_near x) as [Hlo Hhi].
  unfold _normalize_dimension. cbv zeta. set (n := py_round x) in *.
  split.
  - assert (n + -1 ≤ Z.max 2 (if decide (n mod 2 ≠ 0) then n - 1 else n))
      as H by (case_decide; lia).
    rewrite Zle_Qle, inject_Z_plus in H.
    change (inject_Z (-1)) with (-1)%Q in H. lra.
  - intros Hx.
    assert (2 ≤ n) as Hn.
    { change 2 with (py_round (3 # 2)). by apply py_round_mono. }
    assert (Z.max 2 (if decide (n mod 2 ≠ 0) then n - 1 else n) ≤ n) as H.
    { case_decide as Hodd; [|lia].
      assert (n ≠ 2) by (intros ->; by apply Hodd). lia. }
    rewrite Zle_Qle in H. lra.
Qed.

Lemma normalize_dimension_monotone_witness :
  (801 * (1 # 2) <= 801)%Q
  ∧ _normalize_dimension (801 * (1 # 2)) ≤ _normalize_dimension 801.
Proof.
  assert (801 * (1 # 2) <= 801)%Q as H by (vm_compute; discriminate).
  split; [exact H|].
  exact (normalize_dimension_monotone (801 * (1 # 2)) 801 H).
Defined.

Lemma normalize_dimension_fixed_points_witness :
  _normalize_dimension (inject_Z 700) = 700.
Proof.
  destruct (normalize_dimension_fixed_points 700 0) as [H _].
  apply H; [lia|reflexivity].
Defined.

Lemma normalize_dimension_near_witness :
  (inject_Z (_normalize_dimension (4005 # 10)) <= (4005 # 10) + (1 # 2))%Q.
Proof.
  destruct (normalize_dimension_near (4005 # 10)) as [_ H].
  apply H. vm_compute. discriminate.
Defined.

(** ** Further properties of the calls of a job *)
Section JobProtocol.

Context {W : Type}.
Variable eng : Engine W.
Variable cfg : Config.

(** X4.  Only a GIF job resizes, and every size a job asks the engine
    for has an even width and an even height, both at least 2. *)
Theorem resize_requests_are_codec_safe input fmt (s : Sys W) c w h raised :
  CResize c w h raised
    ∈ calls_since s (snd (convert_single_video eng cfg input fmt s)) →
  fmt = "GIF"%string
  ∧ Z.even w = true ∧ 2 ≤ w ∧ Z.even h = true ∧ 2 ≤ h.
Proof.
  destruct (convert_single_video_run eng cfg input fmt s)
    as (tr & lg & res & wd & E & R).
  rewrite E. simpl snd. rewrite calls_since_emitted. intros Hin.
  invert_runs; elem_cases Hin; simplify_eq;
    repeat split;
    first [ done
          | apply normalize_dimension_safe
          | apply (proj2 (normalize_dimension_safe _)) ].
Qed.

(** X5.  A job opens at most one source and calls at most one writer;
    the GIF writer is called only for the target format [GIF] and the
    video writer only for the other formats. *)
Theorem one_open_one_writer input fmt (s : Sys W) :
  let tr := calls_since s (snd (convert_single_video eng cfg input fmt s)) in
  (length (List.filter is_open tr) ≤ 1)%nat
  ∧ (length (List.filter is_write tr) ≤ 1)%nat
  ∧ (∀ c path fps raised,
       CWriteGif c path fps raised ∈ tr → fmt = "GIF"%string)
  ∧ (∀ c path codec acodec raised,
       CWriteVideofile c path codec acodec raised ∈ tr →
       fmt ≠ "GIF"%string).
Proof.
  intros tr. subst tr.
  destruct (convert_single_video_run eng cfg input fmt s)
    as (tr & lg & res & wd & E & R).
  rewrite E. simpl snd. rewrite calls_since_emitted.
  split; [|split; [|split]].
  - invert_runs; simpl; lia.
  - invert_runs; simpl; lia.
  - intros c path fps raised Hin. invert_runs; elem_cases Hin; by simplify_eq.
  - intros c path codec acodec raised Hin.
    invert_runs; elem_cases Hin; by simplify_eq.
Qed.

(** X6.  A job returns a path only when no call raised and its last call
    before the close is a writer call on that path. *)
Theorem job_returns_after_writing input fmt (s : Sys W) out :
  let r := convert_single_video eng cfg input fmt s in
  let tr := calls_since s (snd r) in
  fst r = inr out →
  Forall (λ x, call_raised x = None) tr
  ∧ ∃ before wr c,
      tr = before ++ [wr; CClose c]
      ∧ is_write wr = true
      ∧ write_path wr = Some out.
Proof.
  intros r tr. subst r tr.
  destruct (convert_single_video_run eng cfg input fmt s)
    as (tr & lg & res & wd & E & R).
  rewrite E. simpl fst. simpl snd. rewrite calls_since_emitted.
  intros Hres.
  invert_runs;
    repeat
      match goal with
      | H : match ?r with _ => _ end = _ |- _ => destruct r
      end;
    simplify_eq; simpl; (split; [by repeat constructor|]);
    first
      [ by eexists [_; _], _, _
      | by eexists [_; _; _], _, _
      | by eexists [_; _; _; _], _, _ ].
Qed.

(** X7.  A job fails fast: when a call raises, the job raises the same
    exception, no call before it had raised, and nothing follows it but
    the close of the clip if one was open. *)
Theorem job_fails_fast input fmt (s : Sys W) x e :
  let r := convert_single_video eng cfg input fmt s in
  let tr := calls_since s (snd r) in
  x ∈ tr → call_raised x = Some e →
  fst r = inl e
  ∧ ∃ before,
      Forall (λ y, call_raised y = None) before
      ∧ (tr = before ++ [x] ∨ ∃ c, tr = before ++ [x; CClose c]).
Proof.
  intros r tr. subst r tr.
  destruct (convert_single_video_run eng cfg input fmt s)
    as (tr & lg & res & wd & E & R).
  rewrite E. simpl fst. simpl snd. rewrite calls_since_emitted.
  intros Hin Hraised.
  invert_runs; elem_cases Hin; simplify_eq; simpl in Hraised; simplify_eq;
    (split; [reflexivity|]);
    first
      [ by (exists []; split; [constructor|left; reflexivity])
      | by (eexists [_]; split; [repeat constructor|left; reflexivity])
      | by (eexists [_; _]; split;
            [repeat constructor|right; eexists; reflexivity])
      | by (eexists [_; _; _]; split;
            [repeat constructor|right; eexists; reflexivity])
      | by (eexists [_; _; _; _]; split;
            [repeat constructor|right; eexists; reflexivity]) ].
Qed.

(** X8.  Every call a job makes on a clip is made on the source that the
    job opened: the clip reads through the reader returned by the open. *)
Theorem calls_use_the_opened_source input fmt (s : Sys W) x c :
  let tr := calls_since s (snd (convert_single_video eng cfg input fmt s)) in
  x ∈ tr → call_clip x = Some c →
  ∃ path c0, COpen path (inr c0) ∈ tr ∧ clip_reader c = clip_reader c0.
Proof.
  intros tr. subst tr.
  destruct (convert_single_video_run eng cfg input fmt s)
    as (tr & lg & res & wd & E & R).
  rewrite E. simpl snd. rewrite calls_since_emitted.
  intros Hin Hclip.
  invert_runs; elem_cases Hin; simplify_eq; simpl in Hclip; simplify_eq;
    eexists _, _;
    (split; [apply list_elem_of_further, list_elem_of_here|reflexivity]).
Qed.




End JobProtocol.

Lemma resize_requests_are_codec_safe_witness :
  Z.even 262 = true ∧ 2 ≤ 262.
Proof.
  destruct (resize_requests_are_codec_safe demo_engine (demo_config "GIF")
              "/a/b/clip.MOV" "GIF" demo_init (mkClip 0 400 300) 350 262 None)
    as (_ & _ & _ & H1 & H2); [|by split].
  vm_compute. do 3 apply list_elem_of_further. apply list_elem_of_here.
Defined.

(** ** Further properties of the progress animation *)
Section ProgressAnimation.

Context {W : Type}.
Variable messages : list string.









End ProgressAnimation.

(** ** Further properties of a batch *)
Section BatchProgress.

Context {W : Type}.
Variable eng : Engine W.
Variable cfg : Config.
Variable messages : list string.







End BatchProgress.

(** ** Further properties of the status messages *)
Section RotatorEdges.

Context {W : Type}.
Variable messages : list string.

(** X13.  Whatever the pool, a selection keeps the history at 10 entries
    or fewer and returns a message of the pool; it raises exactly when
    the pool is empty, and then leaves the history empty. *)
Theorem selection_keeps_history_bounded (s : Sys W) :
  (length (used_messages s) ≤ 10)%nat →
  let r := get_random_message messages s in
  (length (used_messages (snd r)) ≤ 10)%nat
  ∧ (∀ m, fst r = inr m → m ∈ messages)
  ∧ ((∃ e, fst r = inl e) ↔ messages = [])
  ∧ (messages = [] → used_messages (snd r) = []).
Proof.
  intros Hlen r. subst r.
  destruct (available messages (used_messages s)) as [|m0 rest] eqn:Hav.
  - apply get_random_message_exhausted in Hav.
    destruct messages as [|m1 pool].
    + destruct Hav as [e ->]. simpl. split; [lia|]. split; [done|].
      split; [|done]. split; [done|]. intros _. by exists e.
    + destruct Hav as (m & Hin & ->). simpl. split; [lia|].
      split; [by intros ? [= <-]|]. split; [|done].
      split; [by intros [e ?]|done].
  - assert (messages ≠ []) as Hne.
    { intros ->. unfold available in Hav. discriminate Hav. }
    apply get_random_message_available in Hav as (m & Hin & ->).
    apply available_spec in Hin as [Hin _]. simpl.
    split; [by apply remembered_length|].
    split; [by intros ? [= <-]|]. split; [|done].
    split; [by intros [e ?]|done].
Qed.

(** A running emission logs one message of the pool and schedules the
    next emission 8 to 10 seconds later. *)
Lemma show_funny_message_running (s : Sys W) :
  messages ≠ [] →
  funny_message_running s = true →
  ∃ m delay s',
    show_funny_message messages s = (inr tt, s')
    ∧ m ∈ messages
    ∧ status_text s' = status_text s ++ [LogMessage m]
    ∧ after_calls s' = after_calls s ++ [(delay, cb_show_funny_message)]
    ∧ 8000 ≤ delay ≤ 10000
    ∧ funny_message_running s' = true.
Proof.
  intros Hpool Hrun. unfold show_funny_message. mrun. rewrite Hrun.
  cbv beta iota delta [negb].
  assert (∃ m used ent,
    m ∈ messages
    ∧ get_random_message messages s
      = (inr m, set_used_messages used (set_entropy ent s)))
    as (m & used & ent & Hin & ->).
  { destruct (available messages (used_messages s)) as [|m0 rest] eqn:Hav.
    - apply get_random_message_exhausted in Hav.
      destruct messages; [done|]. destruct Hav as (m & Hin & ->).
      by eexists _, _, _.
    - apply get_random_message_available in Hav as (m & Hin & ->).
      apply available_spec in Hin as [Hin _]. by eexists _, _, _. }
  unfold log_status, random_randint, draw. mrun. simpl entropy.
  destruct ent as [|r ent]; simpl; rewrite Hrun; simpl.
  - exists m, (8000 + Z.of_nat 0 mod (10000 - 8000 + 1)). eexists.
    split; [reflexivity|]. simpl. repeat split; try done; lia.
  - exists m, (8000 + Z.of_nat r mod (10000 - 8000 + 1)). eexists.
    split; [reflexivity|]. simpl.
    pose proof (Z.mod_pos_bound (Z.of_nat r) (10000 - 8000 + 1)).
    repeat split; try done; lia.
Qed.

(** X14.  Starting the rotator with a non-empty pool shows one message of
    the pool at once, sets the running flag and schedules the next
    emission with a delay between 8000 and 10000 ms; an emission that
    fires while the rotator runs does the same. *)
Theorem rotator_emits_and_reschedules (s : Sys W) :
  messages ≠ [] →
  (∃ m delay s',
     start_funny_messages messages s = (inr tt, s')
     ∧ m ∈ messages
     ∧ log_since s s' = [LogMessage m]
     ∧ after_calls s' = after_calls s ++ [(delay, cb_show_funny_message)]
     ∧ 8000 ≤ delay ≤ 10000
     ∧ funny_message_running s' = true)
  ∧ (funny_message_running s = true →
     ∃ m delay,
       m ∈ messages
       ∧ log_since s (fire messages MessageTick s) = [LogMessage m]
       ∧ after_calls (fire messages MessageTick s)
         = after_calls s ++ [(delay, cb_show_funny_message)]
       ∧ 8000 ≤ delay ≤ 10000).
Proof.
  intros Hpool. split.
  - unfold start_funny_messages. mrun.
    destruct (show_funny_message_running
                (set_funny_message_running true s) Hpool eq_refl)
      as (m & delay & s' & E & Hin & Hlog & Hafter & Hdelay & Hrun).
    simpl in Hlog, Hafter.
    rewrite E. exists m, delay, s'. split; [reflexivity|].
    split; [exact Hin|]. split; [|split; [exact Hafter|split; [exact Hdelay|exact Hrun]]].
    unfold log_since. rewrite Hlog. apply drop_app_length.
  - intros Hrun.
    destruct (show_funny_message_running s Hpool Hrun)
      as (m & delay & s' & E & Hin & Hlog & Hafter & Hdelay & _).
    simpl. rewrite E. simpl. exists m, delay.
    split; [exact Hin|]. split; [|by split].
    unfold log_since. rewrite Hlog. apply drop_app_length.
Qed.

End RotatorEdges.

(** ** Splitting and joining text *)

(** No item of a split holds the separator. *)
Lemma split_on_parts (sep : ascii) (s : string) :
  Forall (λ x, contains_char sep x = false) (split_on sep s).
Proof.
  induction s as [|c r IH]; simpl.
  - by constructor.
  - destruct (decide (c = sep)) as [->|Hc].
    + by constructor.
    + destruct (split_on sep r) as [|x xs]; inversion IH; subst;
        constructor; simpl; try done;
        rewrite bool_decide_eq_false_2 by done; done.
Qed.

Lemma split_on_cons (sep : ascii) (x r : string) :
  contains_char sep x = false →
  split_on sep (x +:+ String sep r) = x :: split_on sep r.
Proof.
  induction x as [|c x IH]; simpl; intros Hx.
  - by rewrite decide_True.
  - apply orb_false_iff in Hx as [Hc Hx].
    apply bool_decide_eq_false in Hc.
    rewrite decide_False by done. by rewrite (IH Hx).
Qed.

Lemma split_on_whole (sep : ascii) (x : string) :
  contains_char sep x = false → split_on sep x = [x].
Proof.
  induction x as [|c x IH]; simpl; intros Hx; [done|].
  apply orb_false_iff in Hx as [Hc Hx].
  apply bool_decide_eq_false in Hc.
  rewrite decide_False by done. by rewrite (IH Hx).
Qed.

(** Splitting undoes joining when no part holds the separator. *)
Lemma split_on_join (sep : ascii) (parts : list string) :
  parts ≠ [] →
  Forall (λ x, contains_char sep x = false) parts →
  split_on sep (join (String sep EmptyString) parts) = parts.
Proof.
  induction parts as [|x parts IH]; [done|]. intros _ Hall.
  inversion Hall as [|? ? Hx Hrest]; subst.
  destruct parts as [|y parts].
  - simpl. by apply split_on_whole.
  - change (join (String sep EmptyString) (x :: y :: parts))
      with (x +:+ String sep (join (String sep EmptyString) (y :: parts))).
    rewrite split_on_cons by done. f_equal. by apply IH.
Qed.

Lemma filter_all {A} (f : A → bool) (l : list A) :
  Forall (λ x, f x = true) l → List.filter f l = l.
Proof.
  induction 1 as [|x l Hx _ IH]; simpl; [done|]. by rewrite Hx, IH.
Qed.

Lemma filter_holds {A} (f : A → bool) (l : list A) :
  Forall (λ x, f x = true) (List.filter f l).
Proof.
  induction l as [|x l IH]; simpl; [constructor|].
  destruct (f x) eqn:E; [by constructor|done].
Qed.

Lemma filter_keeps {A} (P : A → Prop) (f : A → bool) (l : list A) :
  Forall P l → Forall P (List.filter f l).
Proof.
  induction 1 as [|x l Hx _ IH]; simpl; [constructor|].
  destruct (f x); [by constructor|done].
Qed.

(** ** The folder shown for a path *)

Lemma parse_tail_parts (s : string) :
  Forall (λ x, contains_char Pathlib.slash x = false)
    (Pathlib.tail (Pathlib.parse s)).
Proof.
  unfold Pathlib.parse. destruct (Pathlib.splitroot s) as [rt rel].
  simpl. apply filter_keeps, split_on_parts.
Qed.

Lemma last_parts {A} (P : A → Prop) (l : list A) (d : A) :
  P d → Forall P l → P (List.last l d).
Proof.
  intros Hd. induction 1 as [|x l Hx Hl IH]; [done|].
  simpl. destruct l; [done|exact IH].
Qed.

(** X15.  The text shown for a folder never holds more than one
    component of the path: it is empty for the empty path, and otherwise
    three dots, a slash and one component without a slash, which is the
    last component of the path or one of the five well-known folders.
    A path below one of these folders of the home directory shows the
    folder, whatever lies below it. *)
Theorem display_path_shows_one_component (home : Pathlib.Path)
    (full_path : string) :
  (full_path = EmptyString → get_display_path home full_path = EmptyString)
  ∧ (full_path ≠ EmptyString →
     ∃ c,
       get_display_path home full_path = (".../" +:+ c)%string
       ∧ contains_char "/" c = false
       ∧ (c = Pathlib.name (Pathlib.parse full_path)
          ∨ c ∈ common_folders ∧ c ∈ Pathlib.tail (Pathlib.parse full_path)))
  ∧ (∀ folder rest,
       Pathlib.root (Pathlib.parse full_path) = Pathlib.root home →
       Pathlib.tail (Pathlib.parse full_path)
       = Pathlib.tail home ++ folder :: rest →
       folder ∈ common_folders →
       get_display_path home full_path = (".../" +:+ folder)%string).
Proof.
  split; [by intros ->|]. split.
  - intros Hne. unfold get_display_path.
    destruct full_path as [|a r]; [done|].
    change (negb (str_truthy (String a r))) with false. cbv iota zeta.
    set (p := Pathlib.parse (String a r)).
    pose proof (parse_tail_parts (String a r)) as Hparts. fold p in Hparts.
    assert (Hname : ∃ c,
      (".../" +:+ Pathlib.name p)%string = (".../" +:+ c)%string
      ∧ contains_char "/" c = false
      ∧ (c = Pathlib.name p ∨ c ∈ common_folders ∧ c ∈ Pathlib.tail p)).
    { exists (Pathlib.name p). split; [done|]. split; [|by left].
      unfold Pathlib.name.
      by apply (last_parts (λ x, contains_char "/" x = false)). }
    destruct (is_relative_to p home); [|exact Hname].
    destruct (drop (length (Pathlib.tail home)) (Pathlib.tail p))
      as [|first parts] eqn:Hdrop; [exact Hname|].
    destruct (bool_decide (first ∈ common_folders)) eqn:Hc; [|exact Hname].
    apply bool_decide_eq_true in Hc.
    assert (first ∈ Pathlib.tail p) as Hin.
    { rewrite <- (take_drop (length (Pathlib.tail home)) (Pathlib.tail p)).
      rewrite Hdrop. apply elem_of_app. right. apply list_elem_of_here. }
    exists first. split; [done|]. split; [|by right].
    rewrite Forall_forall in Hparts. by apply Hparts.
  - intros folder rest Hroot Htail Hfolder. unfold get_display_path.
    destruct full_path as [|a r].
    { destruct (Pathlib.tail home); discriminate Htail. }
    change (negb (str_truthy (String a r))) with false. cbv iota zeta.
    unfold is_relative_to. rewrite Hroot, Htail.
    rewrite take_app_length, drop_app_length.
    rewrite !bool_decide_eq_true_2 by done.
    reflexivity.
Qed.

(** ** The warning filter of child processes *)

Lemma warning_rules_parts (environ : gmap string string) :
  Forall (λ x, contains_char "," x = false) (warning_rules environ)
  ∧ Forall (λ x, str_truthy x = true) (warning_rules environ).
Proof.
  unfold warning_rules. split.
  - apply filter_keeps, split_on_parts.
  - apply filter_holds.
Qed.

Lemma warning_rules_appended (environ : gmap string string) :
  warning_rules
    (<["PYTHONWARNINGS"%string :=
         join "," (warning_rules environ ++ [filter_rule])]> environ)
  = warning_rules environ ++ [filter_rule].
Proof.
  destruct (warning_rules_parts environ) as [Hsep Htruthy].
  unfold warning_rules at 1. rewrite lookup_insert_eq. simpl default.
  rewrite split_on_join.
  - apply filter_all, Forall_app. split; [exact Htruthy|].
    by repeat constructor.
  - by destruct (warning_rules environ).
  - apply Forall_app. split; [exact Hsep|]. by repeat constructor.
Qed.

(** X16.  After [_append_warning_filter_env] the rule is among the rules
    of [PYTHONWARNINGS]; the rules that were there are kept in their
    order, the new one coming last and only when it was missing; a second
    call changes nothing; no other variable of the environment is
    touched. *)
Theorem warning_filter_installed_once (environ : gmap string string) :
  let environ' := _append_warning_filter_env environ in
  filter_rule ∈ warning_rules environ'
  ∧ warning_rules environ'
    = (if bool_decide (filter_rule ∈ warning_rules environ)
       then warning_rules environ
       else warning_rules environ ++ [filter_rule])
  ∧ _append_warning_filter_env environ' = environ'
  ∧ (∀ k, k ≠ "PYTHONWARNINGS"%string → environ' !! k = environ !! k).
Proof.
  intros environ'. subst environ'. unfold _append_warning_filter_env.
  cbv zeta.
  destruct (bool_decide (filter_rule ∈ warning_rules environ)) eqn:E.
  - apply bool_decide_eq_true in E. split; [exact E|]. split; [done|].
    split; [|done]. by rewrite bool_decide_eq_true_2.
  - rewrite warning_rules_appended.
    assert (filter_rule ∈ warning_rules environ ++ [filter_rule]) as Hin.
    { apply elem_of_app. right. apply list_elem_of_here. }
    split; [exact Hin|]. split; [done|].
    split; [by rewrite bool_decide_eq_true_2|].
    intros k Hk. by rewrite lookup_insert_ne.
Qed.

(** ** The messages of a batch *)
Section BatchMessages.

Context {W : Type}.
Variable eng : Engine W.
Variable cfg : Config.
Variable messages : list string.
Hypothesis Hpool : (11 ≤ distinct messages)%nat.

Lemma rotates_length h ms h' :
  rotates h ms h' → (length h ≤ 10)%nat → (length h' ≤ 10)%nat.
Proof.
  induction 1 as [|h m ms h' _ _ IH]; [done|].
  intros Hlen. by apply IH, remembered_length.
Qed.

Lemma rotates_app h ms h' ms' h'' :
  rotates h ms h' → rotates h' ms' h'' → rotates h (ms ++ ms') h''.
Proof.
  induction 1 as [|h m ms h' Hm _ IH]; [done|].
  intros H2. simpl. constructor; [done|]. by apply IH.
Qed.

(** A message that sits in the history with [length post] younger entries
    is not among the next [10 - length post] selected. *)
Lemma rotates_stay h ms h' :
  rotates h ms h' → (length h ≤ 10)%nat →
  ∀ x pre post j b,
    h = pre ++ x :: post →
    (j + length post < 10)%nat → ms !! j = Some b → b ≠ x.
Proof.
  induction 1 as [|h m ms h' Hfresh _ IH]; intros Hlen x pre post j b Hx Hj Hb;
    [done|].
  destruct j as [|j].
  - injection Hb as <-. intros ->. apply Hfresh. rewrite Hx.
    apply elem_of_app. right. apply list_elem_of_here.
  - simpl in Hb.
    specialize (IH (remembered_length h m Hlen)).
    unfold remembered in IH. cbv zeta in IH. rewrite Hx in IH.
    case_decide as Hfull.
    + destruct pre as [|p pre].
      * rewrite length_app in Hfull. simpl in Hfull, Hj. subst h.
        simpl in Hlen. lia.
      * apply (IH x pre (post ++ [m]) j b);
          [|rewrite length_app; simpl; lia|done].
        simpl. rewrite drop_0. by rewrite <- app_assoc.
    + apply (IH x pre (post ++ [m]) j b);
        [|rewrite length_app; simpl; lia|done].
      by rewrite <- app_assoc.
Qed.

(** Two messages selected at most 10 selections apart differ. *)
Lemma rotates_window h ms h' :
  rotates h ms h' → (length h ≤ 10)%nat →
  ∀ i j a b,
    (i < j ≤ i + 10)%nat → ms !! i = Some a → ms !! j = Some b → a ≠ b.
Proof.
  induction 1 as [|h m ms h' Hfresh Hrot IH]; intros Hlen i j a b Hij Ha Hb;
    [done|].
  destruct i as [|i], j as [|j]; try lia.
  - injection Ha as <-. simpl in Hb.
    assert (∃ pre, remembered h m = pre ++ [m]) as [pre Hpre].
    { unfold remembered. cbv zeta. case_decide as Hfull.
      - destruct h as [|u used]; [simpl in Hfull; lia|].
        exists used. simpl. by rewrite drop_0.
      - by eexists. }
    intros <-.
    by apply (rotates_stay _ _ _ Hrot (remembered_length h m Hlen)
                m pre [] j m Hpre); [simpl; lia|done|].
  - simpl in Ha, Hb.
    apply (IH (remembered_length h m Hlen) i j a b); [lia|done|done].
Qed.

Lemma shown_messages_app lg lg' :
  shown_messages (lg ++ lg') = shown_messages lg ++ shown_messages lg'.
Proof. apply omap_app. Qed.

Lemma rotated_same (s s' : Sys W) :
  status_text s' = status_text s →
  used_messages s' = used_messages s →
  rotated messages s s'.
Proof.
  intros Hlog Hused. exists []. rewrite app_nil_r, Hused.
  split; [done|]. split; [constructor|apply rotates_done].
Qed.

Lemma rotated_trans (s1 s2 s3 : Sys W) :
  rotated messages s1 s2 → rotated messages s2 s3 → rotated messages s1 s3.
Proof.
  intros (lg1 & Hlog1 & Hin1 & Hrot1) (lg2 & Hlog2 & Hin2 & Hrot2).
  exists (lg1 ++ lg2). rewrite shown_messages_app.
  split; [by rewrite Hlog2, Hlog1, app_assoc|].
  split; [by apply Forall_app|]. by eapply rotates_app.
Qed.

Lemma rotated_bound (s s' : Sys W) :
  rotated messages s s' →
  (length (used_messages s) ≤ 10)%nat →
  (length (used_messages s') ≤ 10)%nat.
Proof. intros (lg & _ & _ & Hrot). exact (rotates_length _ _ _ Hrot). Qed.

Lemma animate_same (s : Sys W) :
  status_text (animate_simulated_progress s) = status_text s
  ∧ used_messages (animate_simulated_progress s) = used_messages s.
Proof.
  unfold animate_simulated_progress.
  destruct (simulated_progress_running s) eqn:Hrun; [|done].
  simpl negb. cbv beta iota.
  destruct (py_lt (simulated_progress s) _).
  - cbv zeta. simpl simulated_progress_running. rewrite Hrun. done.
  - rewrite Hrun. done.
Qed.

Lemma show_funny_message_rotated (s : Sys W) :
  (length (used_messages s) ≤ 10)%nat →
  rotated messages s (snd (show_funny_message messages s)).
Proof.
  intros Hlen. unfold show_funny_message. mrun.
  destruct (funny_message_running s) eqn:Hrun; [|by apply rotated_same].
  cbv beta iota delta [negb].
  destruct (available messages (used_messages s)) as [|m0 rest] eqn:Hav;
    [by apply available_nonempty in Hav|].
  apply get_random_message_available in Hav as (m & Hm & ->).
  apply available_spec in Hm as [Hin Hfresh].
  unfold log_status, random_randint, draw. mrun. simpl entropy.
  destruct (List.tl (entropy s)) as [|r ent]; simpl; rewrite Hrun; simpl;
    (exists [LogMessage m]; simpl; split; [done|];
     split; [by repeat constructor|]; constructor; [done|constructor]).
Qed.

Lemma fire_rotated t (s : Sys W) :
  (length (used_messages s) ≤ 10)%nat →
  rotated messages s (fire messages t s).
Proof.
  intros Hlen. destruct t; simpl.
  - apply rotated_same; apply animate_same.
  - by apply show_funny_message_rotated.
Qed.

Lemma fire_all_rotated ts (s : Sys W) :
  (length (used_messages s) ≤ 10)%nat →
  rotated messages s (fire_all messages ts s).
Proof.
  revert s. induction ts as [|t ts IH]; intros s Hlen;
    [by apply rotated_same|].
  unfold fire_all. simpl. fold (fire_all messages ts (fire messages t s)).
  pose proof (fire_rotated t s Hlen) as Ht.
  apply (rotated_trans _ _ _ Ht). apply IH. by eapply rotated_bound.
Qed.

Lemma start_simulated_progress_same (s : Sys W) :
  status_text (start_simulated_progress s) = status_text s
  ∧ used_messages (start_simulated_progress s) = used_messages s.
Proof.
  unfold start_simulated_progress.
  destruct (animate_same (set_simulated_progress_running true s)) as [-> ->].
  done.
Qed.

Lemma job_run_messages fmt dir path name out tr lg res :
  job_run cfg fmt dir path name out tr lg res → shown_messages lg = [].
Proof. destruct 1; reflexivity. Qed.

(** The lines of a turn of the loop hold messages selected in rotation. *)
Lemma process_file_rotated sched fmt index total file sc (s : Sys W) :
  0 < total →
  (length (used_messages s) ≤ 10)%nat →
  ∃ r s',
    process_file eng cfg messages sched fmt index total file sc s
    = (inr r, s')
    ∧ rotated messages s s'.
Proof.
  intros Htotal Hlen.
  assert (∃ s1,
    begin_file messages sched index total s = (inr tt, s1)
    ∧ rotated messages s s1) as (s1 & E1 & R1).
  { unfold begin_file. mrun. destruct (decide (total = 0)) as [|_]; [lia|].
    set (s0 := set_progress_label (LabelConverting index total) _).
    eexists. split; [reflexivity|].
    assert (R0 : rotated messages s s0) by by apply rotated_same.
    pose proof (fire_all_rotated (sched index 0%nat) s0 Hlen) as Ra.
    set (sa := fire_all messages (sched index 0%nat) s0) in *.
    assert (Rb : rotated messages sa (start_simulated_progress sa))
      by (apply rotated_same; apply start_simulated_progress_same).
    pose proof (rotated_trans _ _ _ R0 (rotated_trans _ _ _ Ra Rb)) as R.
    apply (rotated_trans _ _ _ R). apply fire_all_rotated.
    by apply (rotated_bound _ _ R). }
  pose proof (rotated_bound _ _ R1 Hlen) as Hlen1.
  destruct (convert_single_video_run eng cfg file fmt s1)
    as (tr & lgj & res & w & E2 & Rj).
  apply job_run_messages in Rj as Hmj.
  set (s2 := emitted tr lgj w s1) in *.
  assert (R2 : rotated messages s s2).
  { apply (rotated_trans _ _ _ R1). exists lgj. rewrite Hmj.
    split; [done|]. split; constructor. }
  assert (Hlen2 : (length (used_messages s2) ≤ 10)%nat) by exact Hlen1.
  unfold process_file, try_except.
  unfold bind at 1. rewrite E1. unfold bind at 1. rewrite E2.
  destruct res as [e|result].
  - unfold fail_file. mrun. destruct (decide (total = 0)) as [|_]; [lia|].
    unfold log_status. mrun.
    pose proof (fire_all_rotated (sched index 3%nat)
                  (stop_simulated_progress s2) Hlen2) as R3.
    set (s3 := fire_all messages (sched index 3%nat)
                 (stop_simulated_progress s2)) in *.
    eexists _, _. split; [reflexivity|].
    apply (rotated_trans _ _ _ R2).
    apply (rotated_trans _ _ _ (rotated_same s2 (stop_simulated_progress s2)
                                  eq_refl eq_refl)).
    apply (rotated_trans _ _ _ R3).
    exists [LogFailed (name_of file) e]. simpl.
    split; [done|]. split; constructor.
  - unfold end_file. mrun. unfold log_status.
    pose proof (fire_all_rotated (sched index 2%nat) s2 Hlen2) as Ra.
    set (sa := fire_all messages (sched index 2%nat) s2) in *.
    pose proof (rotated_bound _ _ Ra Hlen2) as Hlena.
    pose proof (fire_all_rotated (sched index 3%nat)
                  (stop_simulated_progress sa) Hlena) as Rb.
    set (sb := fire_all messages (sched index 3%nat)
                 (stop_simulated_progress sa)) in *.
    assert (R : rotated messages s sb).
    { apply (rotated_trans _ _ _ R2). apply (rotated_trans _ _ _ Ra).
      apply (rotated_trans _ _ _
               (rotated_same sa (stop_simulated_progress sa)
                  eq_refl eq_refl)).
      exact Rb. }
    destruct (str_truthy result); mrun.
    + eexists _, _. split; [reflexivity|].
      apply (rotated_trans _ _ _ R).
      exists [LogDone (name_of file) (name_of result)]. simpl.
      split; [done|]. split; constructor.
    + eexists _, _. split; [reflexivity|]. exact R.
Qed.

Lemma for_each_file_rotated sched fmt total files :
  0 < total →
  ∀ index sc (s : Sys W),
    (length (used_messages s) ≤ 10)%nat →
    ∃ r s',
      for_each_file eng cfg messages sched fmt total files index sc s
      = (inr r, s')
      ∧ rotated messages s s'.
Proof.
  intros Htotal. induction files as [|file files IH]; intros index sc s Hlen.
  { exists sc, s. split; [reflexivity|]. by apply rotated_same. }
  destruct (process_file_rotated sched fmt index total file sc s Htotal Hlen)
    as (r1 & s1 & E1 & R1).
  destruct (IH (index + 1) r1 s1 (rotated_bound _ _ R1 Hlen))
    as (r & s' & E & R).
  exists r, s'. split.
  { cbn [for_each_file]. unfold bind. by rewrite E1, E. }
  by eapply rotated_trans.
Qed.

(** X17.  With a pool of at least 11 distinct messages, and whatever the
    history left by earlier batches, the engine's answers and the timers
    that fire, the messages among the lines a batch writes to the status
    area all come from the pool, the first line of the batch is one of
    them, and two of them with fewer than 10 others in between are
    different: each was selected while absent from the history, which
    starts empty with the batch. *)
Theorem batch_messages_do_not_repeat sched (s : Sys W) :
  let s' := snd (convert_videos eng cfg messages sched s) in
  let ms := shown_messages (log_since s s') in
  Forall (λ m, m ∈ messages) ms
  ∧ rotates [] ms (used_messages s')
  ∧ (∃ m rest, log_since s s' = LogMessage m :: rest)
  ∧ (∀ i j a b,
       (i < j ≤ i + 10)%nat → ms !! i = Some a → ms !! j = Some b → a ≠ b).
Proof.
  intros s' ms.
  assert (∃ lg m rest,
    status_text s' = status_text s ++ lg
    ∧ lg = LogMessage m :: rest
    ∧ Forall (λ m, m ∈ messages) (shown_messages lg)
    ∧ rotates [] (shown_messages lg) (used_messages s'))
    as (lg & m & rest & Hlog & Hhead & Hin & Hrot).
  { subst s' ms. unfold convert_videos. cbv zeta.
    set (fmt := format_var cfg). set (files := selected_files cfg).
    set (total := Z.of_nat (length files)).
    unfold start_funny_messages, log_status. mrun.
    set (sA := set_funny_message_running true _).
    assert (HlenA : (length (used_messages sA) ≤ 10)%nat) by (simpl; lia).
    destruct (show_funny_message_running messages sA) as
      (m & delay & sB & EB & HmB & HlogB & _ & _ & _); [|done|].
    { intros Hnil. rewrite Hnil in Hpool. unfold distinct in Hpool.
      simpl in Hpool. lia. }
    pose proof (show_funny_message_rotated sA HlenA) as RB.
    rewrite EB in RB |- *. simpl snd in RB.
    set (sC := set_status_text _ (set_status_text _ sB)).
    assert (RC : rotated messages sB sC).
    { exists [LogStarting fmt; LogRule]. subst sC. simpl.
      split; [by rewrite <- app_assoc|]. split; constructor. }
    pose proof (rotated_trans _ _ _ RB RC) as RAC.
    pose proof (rotated_bound _ _ RAC HlenA) as HlenC.
    assert (∃ r sD,
      for_each_file eng cfg messages sched fmt total files 1 0 sC
      = (inr r, sD) ∧ rotated messages sC sD) as (r & sD & E & RD).
    { destruct (Z.lt_ge_cases 0 total) as [Hpos|Hzero].
      - exact (for_each_file_rotated sched fmt total files Hpos 1 0 sC HlenC).
      - assert (files = []) as ->
          by (apply length_zero_iff_nil; subst total; lia).
        exists 0, sC. split; [reflexivity|]. by apply rotated_same. }
    rewrite E. simpl snd.
    pose proof (rotated_trans _ _ _ RAC RD) as (lg & Hlog & Hin & Hrot).
    exists (lg ++ [LogRule; LogSummary r total]).
    assert (∃ rest, lg = LogMessage m :: rest) as [rest0 Hrest0].
    { destruct RC as (lgC & HlogC & _). destruct RD as (lgD & HlogD & _).
      exists (lgC ++ lgD). apply (app_inv_head (status_text sA)).
      rewrite <- Hlog, HlogD, HlogC, HlogB. by rewrite <- !app_assoc. }
    exists m, (rest0 ++ [LogRule; LogSummary r total]).
    split.
    { simpl. rewrite Hlog. subst sA. simpl. by rewrite <- !app_assoc. }
    split; [by rewrite Hrest0|].
    rewrite shown_messages_app. simpl. rewrite app_nil_r.
    split; [exact Hin|]. exact Hrot. }
  assert (Hms : ms = shown_messages lg).
  { subst ms. unfold log_since. rewrite Hlog. by rewrite drop_app_length. }
  rewrite Hms. split; [exact Hin|]. split; [exact Hrot|].
  split.
  { exists m, rest. unfold log_since. rewrite Hlog, drop_app_length.
    exact Hhead. }
  apply (rotates_window _ _ _ Hrot). simpl. lia.
Qed.

End BatchMessages.

(** ** Starting a batch *)
Section StartConversion.

Context {W : Type}.
Variable eng : Engine W.
Variable cfg : Config.
Variable messages : list string.


End StartConversion.

(** ** The name and the place of the output file *)
Section OutputNames.

Variable cfg : Config.

Lemma ascii_lower_slash (a : ascii) :
  ascii_lower a = "/"%char ↔ a = "/"%char.
Proof.
  split.
  - destruct a as [[|] [|] [|] [|] [|] [|] [|] [|]]; vm_compute; intros H;
      first [reflexivity | discriminate H].
  - by intros ->.
Qed.

Lemma contains_lower (s : string) :
  contains_char "/" (lower s) = contains_char "/" s.
Proof.
  induction s as [|a s IH]; [done|]. simpl. rewrite IH. f_equal.
  apply bool_decide_ext, ascii_lower_slash.
Qed.

Lemma contains_app (c : ascii) (a b : string) :
  contains_char c (a +:+ b) = contains_char c a || contains_char c b.
Proof.
  induction a as [|x a IH]; [done|]. simpl. by rewrite IH, orb_assoc.
Qed.

Lemma contains_substring (c : ascii) (s : string) :
  contains_char c s = false →
  ∀ n, contains_char c (substring 0 n s) = false.
Proof.
  induction s as [|a s IH]; intros Hs n.
  - by destruct n.
  - simpl in Hs. apply orb_false_iff in Hs as [Ha Hs].
    destruct n as [|n]; [done|]. simpl. rewrite Ha. by apply IH.
Qed.

Lemma str_length_app (a b : string) :
  String.length (a +:+ b) = (String.length a + String.length b)%nat.
Proof. induction a as [|x a IH]; [done|]. simpl. by rewrite IH. Qed.

Lemma lower_length (s : string) : String.length (lower s) = String.length s.
Proof. induction s as [|a s IH]; [done|]. simpl. by rewrite IH. Qed.

Lemma name_parts (input : string) :
  contains_char "/" (Pathlib.name (Pathlib.parse input)) = false.
Proof.
  unfold Pathlib.name.
  apply (last_parts (λ x, contains_char "/" x = false)); [done|].
  apply parse_tail_parts.
Qed.

Lemma stem_parts (input : string) :
  contains_char "/" (Pathlib.stem (Pathlib.parse input)) = false.
Proof.
  unfold Pathlib.stem. cbv zeta. case_decide.
  - apply contains_substring, name_parts.
  - apply name_parts.
Qed.

(** A text without a slash that is neither empty nor a dot is a path of
    one component. *)
Lemma parse_component (x : string) :
  x ≠ EmptyString → x ≠ "."%string → contains_char "/" x = false →
  Pathlib.parse x = Pathlib.mkPath EmptyString [x].
Proof.
  intros Hne Hdot Hx. destruct x as [|a r]; [done|].
  pose proof Hx as Hx'. simpl in Hx'.
  apply orb_false_iff in Hx' as [Ha _]. apply bool_decide_eq_false in Ha.
  unfold Pathlib.parse, Pathlib.splitroot.
  rewrite decide_False by exact Ha.
  rewrite (split_on_whole Pathlib.slash _ Hx). simpl.
  unfold Pathlib.keep_part.
  by rewrite !bool_decide_eq_true_2.
Qed.

Lemma div_component (p : Pathlib.Path) (x : string) :
  x ≠ EmptyString → x ≠ "."%string → contains_char "/" x = false →
  Pathlib.div p x = Pathlib.mkPath (Pathlib.root p) (Pathlib.tail p ++ [x]).
Proof.
  intros Hne Hdot Hx. unfold Pathlib.div.
  rewrite (parse_component x Hne Hdot Hx).
  destruct x as [|a r]; [done|].
  simpl in Hx. apply orb_false_iff in Hx as [Ha _].
  apply bool_decide_eq_false in Ha.
  by rewrite decide_False.
Qed.

(** X19.  For a target format that is not empty and holds no slash, the
    output file is a direct child of the output directory and its name is
    the stem of the source, a dot and the lower-cased format.  When the
    output directory is the directory of the source (no folder was
    chosen) and the source already has that name, the output path is the
    path of the source: the job writes the file it reads. *)
Theorem output_is_child_of_output_dir (input fmt : string) :
  fmt ≠ EmptyString →
  contains_char "/" fmt = false →
  let p := Pathlib.parse input in
  let out := output_path cfg p fmt in
  let output_name := (Pathlib.stem p +:+ "." +:+ lower fmt)%string in
  Pathlib.tail out = Pathlib.tail (output_dir cfg p) ++ [output_name]
  ∧ Pathlib.parent out = output_dir cfg p
  ∧ Pathlib.name out = output_name
  ∧ (output_dir cfg p = Pathlib.parent p →
     Pathlib.name p = output_name →
     out = p ∧ Pathlib.str out = Pathlib.str p).
Proof.
  intros Hfmt Hslash p out output_name.
  assert (Hne : output_name ≠ EmptyString).
  { subst output_name. intros H. apply (f_equal String.length) in H.
    rewrite !str_length_app in H. simpl in H. lia. }
  assert (Hdot : output_name ≠ "."%string).
  { subst output_name. intros H. apply (f_equal String.length) in H.
    rewrite !str_length_app, lower_length in H.
    destruct fmt; [done|]. simpl in H. lia. }
  assert (Hx : contains_char "/" output_name = false).
  { subst output_name. rewrite !contains_app, contains_lower, Hslash.
    subst p. by rewrite stem_parts. }
  assert (Hout : out = Pathlib.mkPath (Pathlib.root (output_dir cfg p))
                         (Pathlib.tail (output_dir cfg p) ++ [output_name])).
  { subst out. unfold output_path. cbv zeta. fold output_name.
    by apply div_component. }
  split; [by rewrite Hout|]. split; [|split].
  - rewrite Hout. unfold Pathlib.parent. simpl.
    destruct (Pathlib.tail (output_dir cfg p) ++ [output_name]) eqn:E.
    { by destruct (Pathlib.tail (output_dir cfg p)). }
    rewrite <- E, removelast_last. by destruct (output_dir cfg p).
  - rewrite Hout. unfold Pathlib.name. simpl. apply last_last.
  - intros Hdir Hname.
    assert (out = p) as ->; [|done].
    rewrite Hout, Hdir. unfold Pathlib.parent.
    destruct (Pathlib.tail p) as [|c cs] eqn:Htail.
    { unfold Pathlib.name in Hname. rewrite Htail in Hname. simpl in Hname.
      by rewrite <- Hname in Hne. }
    unfold Pathlib.name in Hname. rewrite Htail in Hname.
    rewrite <- Hname.
    change (Pathlib.mkPath (Pathlib.root p)
              (removelast (c :: cs) ++ [List.last (c :: cs) EmptyString])
            = p).
    rewrite <- (app_removelast_last (l := c :: cs) EmptyString) by done.
    rewrite <- Htail. by destruct p.
Qed.

End OutputNames.

(** ** The codecs given to the video writer *)
Section JobCodecs.

Context {W : Type}.
Variable eng : Engine W.
Variable cfg : Config.

(** The codecs of a format, whatever the text of the format. *)
Lemma codecs_of_format (fmt : string) :
  (video_codec fmt, audio_codec fmt)
  ∈ [("libx264", "aac"); ("libx264", "libvorbis");
     ("libvpx", "libvorbis"); ("mpeg4", "libvorbis")]%string
  ∧ (audio_codec fmt = "aac"%string ↔ fmt ∈ ["MP4"; "MOV"; "MKV"]%string)
  ∧ (video_codec fmt = "libvpx"%string ↔ fmt = "WEBM"%string)
  ∧ (video_codec fmt = "mpeg4"%string ↔ fmt = "AVI"%string).
Proof.
  rewrite !elem_of_cons, !elem_of_nil.
  destruct (decide (fmt = "MP4"%string)) as [->|H1].
  { vm_compute video_codec. vm_compute audio_codec.
    split; [by left|]. repeat split; intros; auto; discriminate. }
  destruct (decide (fmt = "MOV"%string)) as [->|H2].
  { vm_compute video_codec. vm_compute audio_codec.
    split; [by left|]. repeat split; intros; auto; discriminate. }
  destruct (decide (fmt = "MKV"%string)) as [->|H3].
  { vm_compute video_codec. vm_compute audio_codec.
    split; [by left|]. repeat split; intros; auto; discriminate. }
  assert (Haudio : audio_codec fmt = "libvorbis"%string).
  { unfold audio_codec. rewrite bool_decide_eq_false_2; [done|].
    rewrite !elem_of_cons, elem_of_nil. by intros [?|[?|[?|?]]]. }
  assert (Hnot : ¬ (fmt = "MP4"%string ∨ fmt = "MOV"%string
                    ∨ fmt = "MKV"%string ∨ False))
    by (by intros [?|[?|[?|?]]]).
  rewrite Haudio.
  destruct (decide (fmt = "WEBM"%string)) as [->|H4].
  { vm_compute video_codec.
    split; [by auto|]. repeat split; intros; auto; try discriminate.
    by destruct Hnot. }
  destruct (decide (fmt = "AVI"%string)) as [->|H5].
  { vm_compute video_codec.
    split; [by auto 6|]. repeat split; intros; auto; try discriminate.
    by destruct Hnot. }
  assert (Hvideo : video_codec fmt = "libx264"%string).
  { unfold video_codec, codec_map.
    rewrite !lookup_insert_ne by done.
    by rewrite lookup_singleton_ne. }
  rewrite Hvideo.
  split; [by auto|]. repeat split; intros; try discriminate; done.
Qed.

(** X20.  Whatever the text of the target format, a call of the video
    writer gets one of four pairs of codecs: [libx264] with [aac] for
    MP4, MOV and MKV, [libvpx] with [libvorbis] for WEBM, [mpeg4] with
    [libvorbis] for AVI, and [libx264] with [libvorbis] for every other
    text; [aac] is never paired with [libvpx] or [mpeg4]. *)
Theorem video_writer_codec_pairs input fmt (s : Sys W) :
  let tr := calls_since s (snd (convert_single_video eng cfg input fmt s)) in
  ∀ c path codec acodec raised,
    CWriteVideofile c path codec acodec raised ∈ tr →
    (codec, acodec)
    ∈ [("libx264", "aac"); ("libx264", "libvorbis");
       ("libvpx", "libvorbis"); ("mpeg4", "libvorbis")]%string
    ∧ (acodec = "aac"%string ↔ fmt ∈ ["MP4"; "MOV"; "MKV"]%string)
    ∧ (codec = "libvpx"%string ↔ fmt = "WEBM"%string)
    ∧ (codec = "mpeg4"%string ↔ fmt = "AVI"%string)
    ∧ (acodec = "aac"%string → codec = "libx264"%string).
Proof.
  intros tr c path codec acodec raised Hin. subst tr.
  destruct (convert_single_video_run eng cfg input fmt s)
    as (tr & lg & res & w & E & R).
  rewrite E in Hin. simpl snd in Hin. rewrite calls_since_emitted in Hin.
  destruct (job_run_writes _ _ _ _ _ _ _ _ _ _ R Hin) as (_ & -> & ->).
  destruct (codecs_of_format fmt) as (Hpair & Haac & Hvpx & Hmpeg).
  split; [exact Hpair|]. split; [exact Haac|]. split; [exact Hvpx|].
  split; [exact Hmpeg|].
  intros Ha. rewrite Ha in Hpair.
  rewrite !elem_of_cons, elem_of_nil in Hpair.
  destruct Hpair as [Hp|[Hp|[Hp|[Hp|[]]]]]; congruence.
Qed.

End JobCodecs.

(** ** The spinner of the convert button *)

Lemma spinner_of_frame (f : Z) :
  let i := f `mod` Z.of_nat (length spinners) in
  0 ≤ i < 4 ∧ ∃ sp, spinners !! Z.to_nat i = Some sp.
Proof.
  intros i. subst i. change (Z.of_nat (length spinners)) with 4.
  pose proof (Z.mod_pos_bound f 4 eq_refl) as Hb. split; [exact Hb|].
  apply lookup_lt_is_Some. simpl. lia.
Qed.

Lemma animate_button_running (b : Button) :
  animation_running b = true →
  ∃ sp,
    spinners !! Z.to_nat (animation_frame b `mod` 4) = Some sp
    ∧ animate_button b
      = inr (mkButton true (animation_frame b + 1) (TextConverting sp)
               (button_after b ++ [100])).
Proof.
  intros Hrun. unfold animate_button. rewrite Hrun. simpl negb.
  cbv beta iota zeta.
  destruct (spinner_of_frame (animation_frame b)) as [Hi [sp Hsp]].
  change (Z.of_nat (length spinners)) with 4 in *.
  unfold py_index. rewrite decide_True by lia. rewrite Hsp. by exists sp.
Qed.

Lemma button_frames_run (n : nat) :
  ∀ b, animation_running b = true →
    ∃ b',
      button_frames n b = inr b'
      ∧ animation_running b' = true
      ∧ animation_frame b' = animation_frame b + Z.of_nat n
      ∧ button_after b' = button_after b ++ replicate n 100
      ∧ (n = 0%nat → b' = b)
      ∧ (n ≠ 0%nat →
         ∃ sp,
           spinners !! Z.to_nat ((animation_frame b' - 1) `mod` 4) = Some sp
           ∧ button_text b' = TextConverting sp).
Proof.
  induction n as [|n IH]; intros b Hrun.
  { exists b. simpl. rewrite Z.add_0_r, app_nil_r. by repeat split. }
  destruct (animate_button_running b Hrun) as (sp & Hsp & E).
  set (b1 := mkButton true (animation_frame b + 1) (TextConverting sp)
               (button_after b ++ [100])) in *.
  destruct (IH b1 eq_refl) as (b' & E' & Hrun' & Hframe & Hafter & H0 & Hn).
  exists b'. cbn [button_frames]. rewrite E, E'.
  split; [done|]. split; [exact Hrun'|].
  split; [rewrite Hframe; simpl; lia|].
  split; [rewrite Hafter; simpl; by rewrite <- app_assoc|].
  split; [done|]. intros _.
  destruct n as [|n].
  - rewrite (H0 eq_refl). exists sp. simpl.
    by replace (animation_frame b + 1 - 1) with (animation_frame b) by lia.
  - by apply Hn.
Qed.

(** X21.  Started, the button animation never fails on the index of its
    spinner: after the start and [n] further firings of its timer the
    frame counter is [n + 1], the button shows the spinner number
    [n mod 4] of the four, so that the text repeats with period 4, and
    one timer of 100 ms was scheduled per frame.  Once stopped, the
    button shows its original text and the timers still pending change
    nothing. *)
Theorem button_spinner_cycles (n : nat) (b : Button) :
  ∃ b' sp,
    match start_button_animation b with
    | inr b0 => button_frames n b0
    | inl e => inl e
    end = inr b'
    ∧ animation_frame b' = Z.of_nat n + 1
    ∧ spinners !! (n `mod` 4)%nat = Some sp
    ∧ button_text b' = TextConverting sp
    ∧ button_after b' = button_after b ++ replicate (S n) 100
    ∧ ∀ k,
        button_frames k (stop_button_animation b')
        = inr (stop_button_animation b')
        ∧ button_text (stop_button_animation b') = TextOriginal.
Proof.
  destruct (button_frames_run (S n)
              (mkButton true 0 (button_text b) (button_after b)) eq_refl)
    as (b' & E & Hrun & Hframe & Hafter & _ & Hn).
  destruct (Hn ltac:(done)) as (sp & Hsp & Htext).
  exists b', sp.
  cbn [button_frames] in E. unfold start_button_animation.
  destruct (animate_button _) as [e|b0]; [done|].
  split; [exact E|]. simpl in Hframe, Hafter.
  split; [lia|]. split.
  { rewrite Hframe in Hsp.
    replace (0 + Z.of_nat (S n) - 1) with (Z.of_nat n) in Hsp by lia.
    change 4 with (Z.of_nat 4) in Hsp.
    by rewrite <- Nat2Z.inj_mod, Nat2Z.id in Hsp. }
  split; [exact Htext|]. split; [exact Hafter|].
  intros k. split; [|done].
  induction k as [|k IH]; [done|]. cbn [button_frames]. exact IH.
Qed.

(** ** The further properties at concrete inputs *)

Lemma job_returns_after_writing_witness :
  ∃ before wr c,
    calls_since demo_init
      (snd (convert_single_video demo_engine (demo_config "MP4")
              "/v/a.mov" "MP4" demo_init))
    = before ++ [wr; CClose c]
    ∧ write_path wr = Some "/v/a.mp4"%string.
Proof.
  destruct (job_returns_after_writing demo_engine (demo_config "MP4")
              "/v/a.mov" "MP4" demo_init "/v/a.mp4")
    as (_ & before & wr & c & E & _ & Hpath).
  - vm_compute. reflexivity.
  - exists before, wr, c. split; [exact E|exact Hpath].
Defined.

Lemma job_fails_fast_witness :
  fst (convert_single_video demo_engine (demo_config "MP4")
         "/v/b.mov" "MP4" demo_init)
  = inl "EncodeError"%string.
Proof.
  destruct (job_fails_fast demo_engine (demo_config "MP4")
              "/v/b.mov" "MP4" demo_init
              (CWriteVideofile (mkClip 0 801 601) "/v/b.mp4" "libx264" "aac"
                 (Some "EncodeError"%string))
              "EncodeError") as [Hres _].
  - vm_compute. do 2 apply list_elem_of_further. apply list_elem_of_here.
  - reflexivity.
  - exact Hres.
Defined.

Lemma calls_use_the_opened_source_witness :
  ∃ path c0,
    COpen path (inr c0)
      ∈ calls_since demo_init
          (snd (convert_single_video demo_engine (demo_config "GIF")
                  "/a/b/clip.MOV" "GIF" demo_init))
    ∧ clip_reader c0 = 0%nat.
Proof.
  destruct (calls_use_the_opened_source demo_engine (demo_config "GIF")
              "/a/b/clip.MOV" "GIF" demo_init
              (CResize (mkClip 0 400 300) 350 262 None) (mkClip 0 400 300))
    as (path & c0 & Hin & Hreader).
  - vm_compute. do 3 apply list_elem_of_further. apply list_elem_of_here.
  - reflexivity.
  - exists path, c0. split; [exact Hin|]. symmetry. exact Hreader.
Defined.





Lemma selection_keeps_history_bounded_witness :
  (length (used_messages demo_init) ≤ 10)%nat
  ∧ (length
       (used_messages (snd (get_random_message THINKING_MESSAGES demo_init)))
     ≤ 10)%nat.
Proof.
  assert (H10 : (length (used_messages demo_init) ≤ 10)%nat)
    by (simpl; lia).
  split; [exact H10|].
  destruct (selection_keeps_history_bounded THINKING_MESSAGES demo_init H10)
    as (Hlen & _).
  exact Hlen.
Defined.

Lemma rotator_emits_and_reschedules_witness :
  THINKING_MESSAGES ≠ []
  ∧ ∃ m delay s',
      start_funny_messages THINKING_MESSAGES demo_init = (inr tt, s')
      ∧ log_since demo_init s' = [LogMessage m]
      ∧ 8000 ≤ delay ≤ 10000.
Proof.
  split; [discriminate|].
  destruct (rotator_emits_and_reschedules THINKING_MESSAGES demo_init)
    as [(m & delay & s' & E & _ & Hlog & _ & Hdelay & _) _]; [discriminate|].
  exists m, delay, s'. split; [exact E|]. split; [exact Hlog|exact Hdelay].
Defined.

Lemma batch_messages_do_not_repeat_witness :
  (11 ≤ distinct THINKING_MESSAGES)%nat
  ∧ ∃ m rest,
      log_since demo_init
        (snd (convert_videos demo_engine (demo_config "MP4")
                THINKING_MESSAGES demo_schedule demo_init))
      = LogMessage m :: rest.
Proof.
  assert (H11 : (11 ≤ distinct THINKING_MESSAGES)%nat) by (vm_compute; lia).
  split; [exact H11|].
  destruct (batch_messages_do_not_repeat demo_engine (demo_config "MP4")
              THINKING_MESSAGES H11 demo_schedule demo_init)
    as (_ & _ & Hfirst & _).
  exact Hfirst.
Defined.


Lemma output_is_child_of_output_dir_witness :
  output_path (demo_config "MP4") (Pathlib.parse "/v/a.mp4") "MP4"
  = Pathlib.parse "/v/a.mp4".
Proof.
  destruct (output_is_child_of_output_dir (demo_config "MP4")
              "/v/a.mp4" "MP4")
    as (_ & _ & _ & Hsame); [discriminate|reflexivity|].
  destruct Hsame as [Hout _]; [reflexivity|reflexivity|].
  exact Hout.
Defined.

Lemma video_writer_codec_pairs_witness :
  "mpeg4"%string = "mpeg4"%string ↔ "AVI"%string = "AVI"%string.
Proof.
  destruct (video_writer_codec_pairs demo_engine (demo_config "AVI")
              "/v/a.mov" "AVI" demo_init
              (mkClip 0 801 601) "/v/a.avi" "mpeg4" "libvorbis" None)
    as (_ & _ & _ & Hmpeg & _).
  - vm_compute. do 2 apply list_elem_of_further. apply list_elem_of_here.
  - exact Hmpeg.
Defined.

Lemma display_path_shows_one_component_witness :
  get_display_path (Pathlib.parse "/home/ann")
    "/home/ann/Documents/tax/2024"
  = ".../Documents"%string.
Proof.
  destruct (display_path_shows_one_component (Pathlib.parse "/home/ann")
              "/home/ann/Documents/tax/2024") as (_ & _ & Hfolder).
  apply (Hfolder "Documents"%string ["tax"; "2024"]%string).
  - reflexivity.
  - reflexivity.
  - apply list_elem_of_further, list_elem_of_here.
Defined.
